(** * Bulk spindle-speed updater: the file rewriter and the directory walker

    A shallow embedding of [update_spindle_speed.py].

    Texts are Python [str] values, modelled as [string].  Two levels are kept
    apart: the characters a file holds ([disk]), and the text that
    [open(path, "r")] delivers of them and that [writelines] accepts ([text]),
    in which every line ending is a line feed.  [universal_newlines] and
    [write_newlines] go from one to the other; the codec that turns bytes
    into characters sits below this model. *)

From Stdlib Require Import String Ascii List Bool Arith Lia Permutation.
Import ListNotations.

Local Open Scope string_scope.
Local Open Scope list_scope.

Local Set Warnings "-register-all".

Infix "+:+" := String.append (at level 60, right associativity).

(** ** Python string primitives used by the program *)

Module Py.

(** The line feed, ["\n"]. *)
Definition LF : ascii := "010"%char.
Definition nl : string := String LF EmptyString.

(** [s.startswith(p)] *)
Definition startswith (s p : string) : bool := String.prefix p s.

(** [sub in s] *)
Fixpoint contains (sub s : string) : bool :=
  String.prefix sub s ||
  match s with
  | EmptyString => false
  | String _ s' => contains sub s'
  end.

(** [s.endswith(suf)] *)
Fixpoint endswith (s suf : string) : bool :=
  String.eqb s suf ||
  match s with
  | EmptyString => false
  | String _ s' => endswith s' suf
  end.

(** [for line in file]: every line keeps its terminating line feed; what
    follows the last line feed, when not empty, is a line of its own. *)
Fixpoint readlines (text : string) : list string :=
  match text with
  | EmptyString => []
  | String c rest =>
      if Ascii.eqb c LF then String c EmptyString :: readlines rest
      else match readlines rest with
           | [] => [String c EmptyString]
           | line :: lines => String c line :: lines
           end
  end.

(** [file.writelines(lines)] into a file opened with ["w"]. *)
Definition writelines (lines : list string) : string :=
  String.concat EmptyString lines.

End Py.

Import Py.

(** ** The file rewriter *)

(** ["S{} ".format(spindle_speed)]: the text looked for in the candidate
    line. *)
Definition match_text (spindle_speed : string) : string :=
  "S" +:+ spindle_speed +:+ " ".

(** ["S{} M3\n".format(spindle_speed)]: the line put in place of the
    candidate. *)
Definition replacement_line (spindle_speed : string) : string :=
  "S" +:+ spindle_speed +:+ " M3" +:+ nl.

(** The [for line in file] loop of [update_file_spindle_speed], with its two
    local variables.  [None] is the early [return]. *)
Fixpoint scan_lines (spindle_speed : string) (lines : list string)
         (found_s_command : bool) (updated_lines : list string)
  : option (list string) :=
  match lines with
  | [] => Some updated_lines
  | line :: rest =>
      if found_s_command then
        scan_lines spindle_speed rest found_s_command (updated_lines ++ [line])
      else if startswith line "S" then
        if contains (match_text spindle_speed) line then None
        else scan_lines spindle_speed rest true
                        (updated_lines ++ [replacement_line spindle_speed])
      else
        scan_lines spindle_speed rest found_s_command (updated_lines ++ [line])
  end.

(** What one call does to the file it is given: it either returns before the
    file is opened for writing, or overwrites the file with a new text. *)
Inductive outcome : Type :=
| Skipped
| Written (text : string).

(** The body of [update_file_spindle_speed] on a file holding [text]. *)
Definition rewrite_text (spindle_speed text : string) : outcome :=
  match scan_lines spindle_speed (readlines text) false [] with
  | None => Skipped
  | Some updated_lines => Written (writelines updated_lines)
  end.

(** The text the file holds once the call has returned. *)
Definition text_after (spindle_speed text : string) : string :=
  match rewrite_text spindle_speed text with
  | Skipped => text
  | Written text' => text'
  end.

(** *** Vocabulary of the specification *)

Definition is_directive (line : string) : bool := startswith line "S".

(** The first line that starts with ['S'], if any. *)
Definition first_directive (lines : list string) : option string :=
  List.find is_directive lines.

Definition has_directive (lines : list string) : bool :=
  List.existsb is_directive lines.

(** Positions, counted from [i], at which two line sequences differ; a line
    present on one side only differs. *)
Fixpoint differing_lines (i : nat) (before after : list string) {struct before}
  : list nat :=
  match before with
  | [] => List.seq i (List.length after)
  | b :: before' =>
      match after with
      | [] => i :: differing_lines (S i) before' []
      | a :: after' =>
          (if String.eqb b a then [] else [i])
            ++ differing_lines (S i) before' after'
      end
  end.

(** A text without line feed, as [input()] returns it. *)
Fixpoint single_line (s : string) : bool :=
  match s with
  | EmptyString => true
  | String c s' => negb (Ascii.eqb c LF) && single_line s'
  end.

(** The canonical directive text of the specification's glossary. *)
Definition canonical_text (spindle_speed : string) : string :=
  "S" +:+ spindle_speed +:+ " M3".

(** A line closed by its line feed, which is its only one. *)
Fixpoint terminated (line : string) : bool :=
  match line with
  | EmptyString => false
  | String c rest =>
      if Ascii.eqb c LF then String.eqb rest EmptyString else terminated rest
  end.

(** The shape of what [readlines] yields: closed lines, the last of which may
    instead be a non-empty text without line feed. *)
Fixpoint well_formed_lines (lines : list string) : bool :=
  match lines with
  | [] => true
  | line :: rest =>
      match rest with
      | [] =>
          terminated line
          || (negb (String.eqb line EmptyString) && single_line line)
      | _ :: _ => terminated line && well_formed_lines rest
      end
  end.

(** ** The file system under [folder_path] *)

(** A path below [folder_path], one component per level. *)
Definition path : Type := list string.

(** A directory entry: a file with the text it holds, or a directory with
    its entries.  Every file of the tree can be read and written; symbolic
    links and unreadable directories are left out. *)
Inductive node : Type :=
| File (name : string) (text : string)
| Dir (name : string) (children : list node).

Definition node_name (n : node) : string :=
  match n with
  | File name _ => name
  | Dir name _ => name
  end.

Definition filenames (entries : list node) : list string :=
  flat_map (fun n => match n with File name _ => [name] | Dir _ _ => [] end)
           entries.

Definition dirnames (entries : list node) : list string :=
  flat_map (fun n => match n with File _ _ => [] | Dir name _ => [name] end)
           entries.

(** [os.walk(top)], top-down: the triple of a directory comes before the
    triples of its sub-directories. *)
Fixpoint os_walk_node (top : path) (n : node)
  : list (path * list string * list string) :=
  match n with
  | File _ _ => []
  | Dir name children =>
      (top ++ [name], dirnames children, filenames children)
        :: flat_map (os_walk_node (top ++ [name])) children
  end.

Definition os_walk (top : path) (entries : list node)
  : list (path * list string * list string) :=
  (top, dirnames entries, filenames entries)
    :: flat_map (os_walk_node top) entries.

(** The path flavours of [pathlib]: a pattern is matched with case on POSIX
    and without on Windows. *)
Inductive flavour : Type :=
| Posix
| Windows.

Definition lower (c : ascii) : ascii :=
  let n := nat_of_ascii c in
  if Nat.leb 65 n && Nat.leb n 90 then ascii_of_nat (n + 32) else c.

Fixpoint casefold (s : string) : string :=
  match s with
  | EmptyString => EmptyString
  | String c s' => String (lower c) (casefold s')
  end.

(** Whether a name matches the pattern ["*.tap"]. *)
Definition fnmatch_tap (fl : flavour) (name : string) : bool :=
  match fl with
  | Posix => endswith name ".tap"
  | Windows => endswith (casefold name) ".tap"
  end.

(** [Path(top).rglob("*.tap")]: every entry below [top], file or directory,
    at any depth, whose name matches the pattern. *)
Fixpoint rglob_node (fl : flavour) (top : path) (n : node) : list path :=
  (if fnmatch_tap fl (node_name n) then [top ++ [node_name n]] else [])
    ++ match n with
       | File _ _ => []
       | Dir name children => flat_map (rglob_node fl (top ++ [name])) children
       end.

Definition rglob_tap (fl : flavour) (top : path) (entries : list node)
  : list path :=
  flat_map (rglob_node fl top) entries.

(** Whether [file_path], read from the directory holding [n], names a file. *)
Fixpoint is_file_at (file_path : path) (n : node) {struct n} : bool :=
  match n, file_path with
  | File name _, [name'] => String.eqb name name'
  | Dir name children, name' :: next :: more =>
      String.eqb name name' && existsb (is_file_at (next :: more)) children
  | _, _ => false
  end.

(** The entry [n] once the text of the file at [file_path] went through [f]. *)
Fixpoint map_file (f : string -> string) (file_path : path) (n : node)
         {struct n} : node :=
  match n, file_path with
  | File name text, [name'] =>
      if String.eqb name name' then File name (f text) else n
  | Dir name children, name' :: next :: more =>
      if String.eqb name name'
      then Dir name (map (map_file f (next :: more)) children)
      else n
  | _, _ => n
  end.

(** How a call ends: normally, or with one of the two exceptions the program
    can raise. *)
Inductive result (A : Type) : Type :=
| Ok (a : A)
| IOError
| ZeroDivisionError.

Arguments Ok {A} a.
Arguments IOError {A}.
Arguments ZeroDivisionError {A}.

(** [update_file_spindle_speed(file_path, spindle_speed)] on the file system:
    [open(file_path, "r")] raises when no file is there; otherwise the file
    ends up holding [text_after], written or left as it was. *)
Definition update_file_spindle_speed (file_path : path) (spindle_speed : string)
           (entries : list node) : result (list node) :=
  if existsb (is_file_at file_path) entries
  then Ok (map (map_file (text_after spindle_speed) file_path) entries)
  else IOError.

(** ** The directory walker *)

(** The state of [update_spindle_speed] while it runs.  [calls] and
    [progress] are traces: the paths handed to the rewriter, and the
    [processed_files/total_files] pair of every progress line printed. *)
Record walker_state : Type := {
  fs : list node;
  processed_files : nat;
  calls : list path;
  progress : list (nat * nat)
}.

(** A [for] loop whose body may raise. *)
Fixpoint for_each {A : Type} (body : walker_state -> A -> result walker_state)
         (xs : list A) (st : walker_state) : result walker_state :=
  match xs with
  | [] => Ok st
  | x :: xs' =>
      match body st x with
      | Ok st' => for_each body xs' st'
      | IOError => IOError
      | ZeroDivisionError => ZeroDivisionError
      end
  end.

(** The body of [for file in files]. *)
Definition process_file (spindle_speed : string) (total_files : nat)
           (root : path) (st : walker_state) (file : string)
  : result walker_state :=
  if endswith file ".tap" then
    let file_path := root ++ [file] in
    match update_file_spindle_speed file_path spindle_speed (fs st) with
    | Ok fs' =>
        let processed := S (processed_files st) in
        if Nat.eqb total_files 0 then ZeroDivisionError
        else Ok {| fs := fs';
                   processed_files := processed;
                   calls := calls st ++ [file_path];
                   progress := progress st ++ [(processed, total_files)] |}
    | IOError => IOError
    | ZeroDivisionError => ZeroDivisionError
    end
  else Ok st.

(** [total_files = sum(1 for _ in Path(folder_path).rglob('*.tap'))] *)
Definition total_files (fl : flavour) (folder : list node) : nat :=
  List.length (rglob_tap fl [] folder).

Definition initial_state (folder : list node) : walker_state :=
  {| fs := folder; processed_files := 0; calls := []; progress := [] |}.

(** [update_spindle_speed(folder_path, spindle_speed)].  The triples are those
    of the tree the run starts from: the rewriter changes texts only, never
    the names [os.walk] lists (see [os_walk_update]). *)
Definition update_spindle_speed (fl : flavour) (folder : list node)
           (spindle_speed : string) : result walker_state :=
  for_each
    (fun st '(root, _, files) =>
       for_each (process_file spindle_speed (total_files fl folder) root)
                files st)
    (os_walk [] folder)
    (initial_state folder).

(** *** Vocabulary of the specification *)

(** Every file of the tree, at any depth, by path. *)
Fixpoint files_of_node (top : path) (n : node) : list path :=
  match n with
  | File name _ => [top ++ [name]]
  | Dir name children => flat_map (files_of_node (top ++ [name])) children
  end.

Definition files_of (top : path) (entries : list node) : list path :=
  flat_map (files_of_node top) entries.

(** The name a path ends with. *)
Definition basename (p : path) : string := List.last p EmptyString.

Definition eligible (p : path) : bool := endswith (basename p) ".tap".

(** The paths [rglob] retains. *)
Definition matches (fl : flavour) (p : path) : bool :=
  fnmatch_tap fl (basename p).

(** The paths of one [os.walk] triple that pass the [endswith(".tap")] test,
    in the order of the inner loop. *)
Definition tap_paths_of (triple : path * list string * list string)
  : list path :=
  let '(root, _, files) := triple in
  map (fun file => root ++ [file])
      (filter (fun file => endswith file ".tap") files).

(** The paths a run goes through, in order. *)
Definition visited (triples : list (path * list string * list string))
  : list path :=
  flat_map tap_paths_of triples.

(** The file system once the files at [paths] were rewritten, in order. *)
Definition rewrite_all (spindle_speed : string) (paths : list path)
           (entries : list node) : list node :=
  fold_left (fun es p => map (map_file (text_after spindle_speed) p) es)
            paths entries.

(** The walker state once the loop body ran, without raising, on [paths]. *)
Definition advance (spindle_speed : string) (total : nat) (paths : list path)
           (st : walker_state) : walker_state :=
  {| fs := rewrite_all spindle_speed paths (fs st);
     processed_files := processed_files st + List.length paths;
     calls := calls st ++ paths;
     progress := progress st
                 ++ map (fun k => (k, total))
                        (List.seq (S (processed_files st)) (List.length paths)) |}.

(** Every directory of the tree, at any depth, by path. *)
Fixpoint dirs_of_node (top : path) (n : node) : list path :=
  match n with
  | File _ _ => []
  | Dir name children =>
      (top ++ [name]) :: flat_map (dirs_of_node (top ++ [name])) children
  end.

Definition dirs_of (top : path) (entries : list node) : list path :=
  flat_map (dirs_of_node top) entries.

(** ** The text layer *)

(** The carriage return, ["\r"]. *)
Definition CR : ascii := "013"%char.

(** Whether the character [c] is absent from [s]. *)
Fixpoint lacks (c : ascii) (s : string) : bool :=
  match s with
  | EmptyString => true
  | String d s' => negb (Ascii.eqb d c) && lacks c s'
  end.

(** What [open(path, "r")] delivers of the characters of a file (universal
    newlines): a carriage return and line feed pair, and a carriage return
    alone, are each read as one line feed. *)
Fixpoint universal_newlines (disk : string) : string :=
  match disk with
  | EmptyString => EmptyString
  | String c rest =>
      if Ascii.eqb c CR then
        String LF (match rest with
                   | EmptyString => EmptyString
                   | String d rest' =>
                       if Ascii.eqb d LF then universal_newlines rest'
                       else universal_newlines rest
                   end)
      else String c (universal_newlines rest)
  end.

(** What a file opened with ["w"] receives of a text: each line feed is
    written as [os.linesep], which the platform fixes. *)
Fixpoint write_newlines (fl : flavour) (text : string) : string :=
  match text with
  | EmptyString => EmptyString
  | String c rest =>
      if Ascii.eqb c LF then
        match fl with
        | Posix => String LF (write_newlines fl rest)
        | Windows => String CR (String LF (write_newlines fl rest))
        end
      else String c (write_newlines fl rest)
  end.

(** [update_file_spindle_speed] on the characters of the file: what the file
    holds once the call has returned.  A call that returns early leaves the
    file as it is; the others overwrite it. *)
Definition disk_after (fl : flavour) (spindle_speed disk : string) : string :=
  match rewrite_text spindle_speed (universal_newlines disk) with
  | Skipped => disk
  | Written text => write_newlines fl text
  end.

(** The lines [for line in file] yields of a file. *)
Definition lines_on_disk (disk : string) : list string :=
  readlines (universal_newlines disk).

(** The lines a reader finds in the file once the call has returned. *)
Definition lines_after (fl : flavour) (spindle_speed disk : string)
  : list string :=
  lines_on_disk (disk_after fl spindle_speed disk).

(** A file whose line endings are those the platform writes. *)
Definition native_newlines (fl : flavour) (disk : string) : bool :=
  String.eqb (write_newlines fl (universal_newlines disk)) disk.

(** The tree as the next run reads it: each text written with the
    platform's line endings and read back. *)
Fixpoint read_back (fl : flavour) (n : node) : node :=
  match n with
  | File name text =>
      File name (universal_newlines (write_newlines fl text))
  | Dir name children => Dir name (map (read_back fl) children)
  end.

(** Whether no text of the tree holds a carriage return, as is the case of
    texts that were read. *)
Fixpoint texts_lack_CR (n : node) : bool :=
  match n with
  | File _ text => lacks CR text
  | Dir _ children => forallb texts_lack_CR children
  end.

(** *** Further vocabulary *)

(** A speed typed as a plain token: no space, no ['S'], no line feed and no
    carriage return. *)
Fixpoint plain (s : string) : bool :=
  match s with
  | EmptyString => true
  | String c s' =>
      negb (Ascii.eqb c " ") && negb (Ascii.eqb c "S")
      && negb (Ascii.eqb c LF) && negb (Ascii.eqb c CR) && plain s'
  end.

(** The texts of the files that [file_path], read from the directory
    holding [n], names: one at most when names are distinct. *)
Fixpoint texts_at (file_path : path) (n : node) {struct n} : list string :=
  match n, file_path with
  | File name text, [name'] => if String.eqb name name' then [text] else []
  | Dir name children, name' :: next :: more =>
      if String.eqb name name'
      then flat_map (texts_at (next :: more)) children
      else []
  | _, _ => []
  end.

(** The texts read at [file_path] below [folder_path]. *)
Definition read_texts (file_path : path) (entries : list node) : list string :=
  flat_map (texts_at file_path) entries.

(** The names and the layout of a tree, texts left out. *)
Fixpoint shape (n : node) : node :=
  match n with
  | File name _ => File name EmptyString
  | Dir name children => Dir name (map shape children)
  end.

(** The tree once every file whose name ends with [".tap"] went through the
    rewriter. *)
Fixpoint rewrite_node (spindle_speed : string) (n : node) : node :=
  match n with
  | File name text =>
      File name (if endswith name ".tap" then text_after spindle_speed text
                 else text)
  | Dir name children => Dir name (map (rewrite_node spindle_speed) children)
  end.

(** The tree once the text of every file went through [g], which is given
    the path of the file. *)
Fixpoint map_texts (g : path -> string -> string) (top : path) (n : node)
  : node :=
  match n with
  | File name text => File name (g (top ++ [name]) text)
  | Dir name children => Dir name (map (map_texts g (top ++ [name])) children)
  end.

(** What a text at path [q] becomes when [f] is applied at each of [paths]
    in turn. *)
Definition apply_at (f : string -> string) (paths : list path) (q : path)
           (text : string) : string :=
  fold_left (fun t p => if list_eq_dec string_dec q p then f t else t)
            paths text.

(** * Properties *)

(** ** Texts and lines *)

Lemma append_assoc (a b c : string) : (a +:+ b) +:+ c = a +:+ b +:+ c.
Proof. induction a as [|x a IH]; simpl; [reflexivity | now rewrite IH]. Qed.

Lemma append_nil_r (a : string) : a +:+ EmptyString = a.
Proof. induction a as [|x a IH]; simpl; [reflexivity | now rewrite IH]. Qed.

Lemma writelines_cons (line : string) (lines : list string) :
  writelines (line :: lines) = line +:+ writelines lines.
Proof.
  unfold writelines. destruct lines as [|l ls]; simpl.
  - now rewrite append_nil_r.
  - reflexivity.
Qed.

Lemma writelines_app (xs ys : list string) :
  writelines (xs ++ ys) = writelines xs +:+ writelines ys.
Proof.
  induction xs as [|x xs IH].
  - reflexivity.
  - rewrite <- app_comm_cons, !writelines_cons, IH. now rewrite append_assoc.
Qed.

Lemma readlines_cons_other (c : ascii) (rest : string) :
  Ascii.eqb c LF = false ->
  readlines (String c rest)
  = match readlines rest with
    | [] => [String c EmptyString]
    | line :: lines => String c line :: lines
    end.
Proof. intros H. simpl. now rewrite H. Qed.

(** Writing back the lines read gives the text read. *)
Lemma writelines_readlines (text : string) : writelines (readlines text) = text.
Proof.
  induction text as [|c rest IH].
  - reflexivity.
  - simpl. destruct (Ascii.eqb c LF) eqn:E.
    + now rewrite writelines_cons, IH.
    + destruct (readlines rest) as [|l ls].
      * unfold writelines in IH. simpl in IH. now subst rest.
      * rewrite writelines_cons in *. simpl. now rewrite IH.
Qed.

Lemma readlines_terminated (line text : string) :
  terminated line = true -> readlines (line +:+ text) = line :: readlines text.
Proof.
  induction line as [|c line IH]; simpl; [discriminate|].
  destruct (Ascii.eqb c LF) eqn:E; intros H.
  - apply String.eqb_eq in H. now subst line.
  - now rewrite (IH H).
Qed.

Lemma readlines_single_line (line : string) :
  line <> EmptyString -> single_line line = true -> readlines line = [line].
Proof.
  induction line as [|c line IH]; [congruence|].
  intros _ H. simpl in H. apply andb_true_iff in H as [Hc Hl].
  apply negb_true_iff in Hc. rewrite (readlines_cons_other _ _ Hc).
  destruct line as [|d line]; [reflexivity|].
  rewrite IH; [reflexivity | discriminate | assumption].
Qed.

(** Reading back well-formed lines gives the lines written. *)
Lemma readlines_writelines (lines : list string) :
  well_formed_lines lines = true -> readlines (writelines lines) = lines.
Proof.
  induction lines as [|l ls IH]; [reflexivity|].
  rewrite writelines_cons. simpl. destruct ls as [|l' ls'].
  - intros H. unfold writelines. simpl. rewrite append_nil_r.
    apply orb_true_iff in H as [H|H].
    + rewrite <- (append_nil_r l) at 1. now rewrite readlines_terminated.
    + apply andb_true_iff in H as [Hne Hs]. apply negb_true_iff in Hne.
      apply String.eqb_neq in Hne. now apply readlines_single_line.
  - intros H. apply andb_true_iff in H as [Ht Hw].
    rewrite readlines_terminated by assumption. now rewrite IH.
Qed.

Lemma readlines_well_formed (text : string) :
  well_formed_lines (readlines text) = true.
Proof.
  induction text as [|c rest IH]; [reflexivity|].
  simpl readlines. destruct (Ascii.eqb c LF) eqn:E.
  - apply Ascii.eqb_eq in E. subst c.
    change (well_formed_lines (nl :: readlines rest) = true).
    simpl. destruct (readlines rest); [reflexivity | exact IH].
  - destruct (readlines rest) as [|l ls].
    + simpl. now rewrite E.
    + simpl in *. rewrite E. destruct ls as [|l' ls'].
      * apply orb_true_iff in IH as [H|H]; [now rewrite H|].
        apply andb_true_iff in H as [_ H]. rewrite H. apply orb_true_r.
      * exact IH.
Qed.

(** Putting a closed line in place of any line keeps the lines well formed. *)
Lemma well_formed_replace (pre post : list string) (old new : string) :
  well_formed_lines (pre ++ old :: post) = true ->
  terminated new = true ->
  well_formed_lines (pre ++ new :: post) = true.
Proof.
  intros H Hn. induction pre as [|p pre IH].
  - simpl in *. destruct post as [|q post].
    + now rewrite Hn.
    + apply andb_true_iff in H as [_ H]. now rewrite Hn.
  - rewrite <- app_comm_cons in *. simpl in *.
    destruct (pre ++ old :: post) as [|x xs] eqn:E1;
      [now destruct pre|].
    destruct (pre ++ new :: post) as [|y ys] eqn:E2;
      [now destruct pre|].
    apply andb_true_iff in H as [Hp H]. rewrite Hp. simpl. now apply IH.
Qed.

Lemma terminated_append (a b : string) :
  single_line a = true -> terminated b = true -> terminated (a +:+ b) = true.
Proof.
  induction a as [|c a IH]; simpl; [trivial|].
  intros H Hb. apply andb_true_iff in H as [Hc Ha].
  apply negb_true_iff in Hc. rewrite Hc. now apply IH.
Qed.

Lemma terminated_replacement_line (spindle_speed : string) :
  single_line spindle_speed = true ->
  terminated (replacement_line spindle_speed) = true.
Proof.
  intros H. unfold replacement_line.
  change (terminated (String "S" (spindle_speed +:+ " M3" +:+ nl)) = true).
  simpl. now apply terminated_append.
Qed.


(** ** The scanning loop *)

Section Scan.

Variable spindle_speed : string.

(** Once the directive was met, every later line is copied. *)
Lemma scan_lines_found (lines acc : list string) :
  scan_lines spindle_speed lines true acc = Some (acc ++ lines).
Proof.
  revert acc. induction lines as [|l ls IH]; intros acc; simpl.
  - now rewrite app_nil_r.
  - now rewrite IH, <- app_assoc.
Qed.

(** Without directive line, every line is copied. *)
Lemma scan_lines_no_directive (lines acc : list string) :
  has_directive lines = false ->
  scan_lines spindle_speed lines false acc = Some (acc ++ lines).
Proof.
  revert acc. induction lines as [|l ls IH]; intros acc H; simpl in *.
  - now rewrite app_nil_r.
  - apply orb_false_iff in H as [Hl Hls]. unfold is_directive in Hl.
    rewrite Hl, IH by assumption. now rewrite <- app_assoc.
Qed.

(** At the first directive line the loop either returns or replaces it. *)
Lemma scan_lines_directive (pre post acc : list string) (line : string) :
  has_directive pre = false ->
  is_directive line = true ->
  scan_lines spindle_speed (pre ++ line :: post) false acc
  = if contains (match_text spindle_speed) line then None
    else Some (acc ++ pre ++ replacement_line spindle_speed :: post).
Proof.
  revert acc. induction pre as [|p pre IH]; intros acc Hpre Hline; simpl in *.
  - unfold is_directive in Hline. rewrite Hline.
    destruct (contains (match_text spindle_speed) line); [reflexivity|].
    rewrite scan_lines_found. now rewrite <- app_assoc.
  - apply orb_false_iff in Hpre as [Hp Hpre]. unfold is_directive in Hp.
    rewrite Hp, IH by assumption.
    destruct (contains (match_text spindle_speed) line); [reflexivity|].
    now rewrite <- app_assoc.
Qed.

End Scan.

(** A sequence with a directive line splits at the first one. *)
Lemma first_directive_split (lines : list string) :
  has_directive lines = true ->
  exists pre line post,
    lines = pre ++ line :: post
    /\ has_directive pre = false /\ is_directive line = true.
Proof.
  induction lines as [|l ls IH]; simpl; [discriminate|].
  destruct (is_directive l) eqn:E.
  - intros _. now exists [], l, ls.
  - simpl. intros H. destruct (IH H) as (pre & line & post & -> & Hp & Hl).
    exists (l :: pre), line, post. simpl. now rewrite E, Hp.
Qed.

Lemma first_directive_at (pre post : list string) (line : string) :
  has_directive pre = false ->
  is_directive line = true ->
  first_directive (pre ++ line :: post) = Some line.
Proof.
  unfold first_directive. induction pre as [|p pre IH]; simpl; intros Hp Hl.
  - now rewrite Hl.
  - apply orb_false_iff in Hp as [Hp Hpre]. rewrite Hp. now apply IH.
Qed.

Lemma first_directive_none (lines : list string) :
  has_directive lines = false -> first_directive lines = None.
Proof.
  unfold first_directive. induction lines as [|l ls IH]; simpl; [trivial|].
  intros H. apply orb_false_iff in H as [Hl Hls]. rewrite Hl. now apply IH.
Qed.

(** ** The rewriter on one text *)

Lemma rewrite_text_no_directive (spindle_speed text : string) :
  has_directive (readlines text) = false ->
  rewrite_text spindle_speed text = Written text.
Proof.
  intros H. unfold rewrite_text.
  rewrite scan_lines_no_directive by assumption. simpl.
  now rewrite writelines_readlines.
Qed.

Lemma rewrite_text_directive (spindle_speed text : string)
      (pre post : list string) (line : string) :
  readlines text = pre ++ line :: post ->
  has_directive pre = false ->
  is_directive line = true ->
  rewrite_text spindle_speed text
  = if contains (match_text spindle_speed) line then Skipped
    else Written (writelines (pre ++ replacement_line spindle_speed :: post)).
Proof.
  intros E Hp Hl. unfold rewrite_text.
  rewrite E, scan_lines_directive by assumption.
  now destruct (contains (match_text spindle_speed) line).
Qed.

Lemma replacement_line_split (spindle_speed : string) :
  replacement_line spindle_speed = match_text spindle_speed +:+ "M3" +:+ nl.
Proof.
  unfold replacement_line, match_text. simpl. f_equal.
  now rewrite append_assoc.
Qed.

Lemma prefix_nil (s : string) : String.prefix EmptyString s = true.
Proof. now destruct s. Qed.

Lemma is_directive_S (rest : string) : is_directive (String "S" rest) = true.
Proof.
  unfold is_directive, startswith. simpl.
  destruct (ascii_dec "S" "S"); [apply prefix_nil | congruence].
Qed.

Lemma prefix_append (a b : string) : String.prefix a (a +:+ b) = true.
Proof.
  induction a as [|c a IH]; simpl.
  - apply prefix_nil.
  - destruct (ascii_dec c c); [exact IH | congruence].
Qed.

Lemma contains_prefix (a s : string) :
  String.prefix a s = true -> contains a s = true.
Proof. intros H. destruct s; cbn [contains]; now rewrite H. Qed.

(** The replacement line is a directive line that holds the text looked for:
    a later call stops at it. *)
Lemma replacement_line_matches (spindle_speed : string) :
  is_directive (replacement_line spindle_speed) = true
  /\ contains (match_text spindle_speed) (replacement_line spindle_speed) = true.
Proof.
  split; [apply is_directive_S|]. apply contains_prefix.
  rewrite replacement_line_split. apply prefix_append.
Qed.

(** The lines of the file after the call, for a speed without line feed. *)
Lemma written_lines_directive (spindle_speed text : string)
      (pre post : list string) (line : string) :
  single_line spindle_speed = true ->
  readlines text = pre ++ line :: post ->
  has_directive pre = false ->
  is_directive line = true ->
  readlines (text_after spindle_speed text)
  = pre ++ (if contains (match_text spindle_speed) line then line
            else replacement_line spindle_speed) :: post.
Proof.
  intros Hs E Hp Hl. unfold text_after.
  rewrite (rewrite_text_directive _ _ _ _ _ E Hp Hl).
  destruct (contains (match_text spindle_speed) line); [exact E|].
  apply readlines_writelines.
  apply well_formed_replace with (old := line).
  - rewrite <- E. apply readlines_well_formed.
  - now apply terminated_replacement_line.
Qed.

Lemma written_lines_no_directive (spindle_speed text : string) :
  has_directive (readlines text) = false ->
  readlines (text_after spindle_speed text) = readlines text.
Proof.
  intros H. unfold text_after.
  now rewrite rewrite_text_no_directive.
Qed.

Lemma differing_lines_same (i : nat) (lines : list string) :
  differing_lines i lines lines = [].
Proof.
  revert i. induction lines as [|l ls IH]; intros i; simpl; [reflexivity|].
  now rewrite String.eqb_refl, IH.
Qed.

Lemma differing_lines_replace (i : nat) (pre post : list string)
      (old new : string) :
  differing_lines i (pre ++ old :: post) (pre ++ new :: post)
  = if String.eqb old new then [] else [i + List.length pre].
Proof.
  revert i. induction pre as [|p pre IH]; intros i; simpl.
  - rewrite differing_lines_same, app_nil_r, Nat.add_0_r. reflexivity.
  - rewrite String.eqb_refl, IH. simpl.
    destruct (String.eqb old new); [reflexivity|]. f_equal. lia.
Qed.

Lemma prefix_append_l (a b s : string) :
  String.prefix (a +:+ b) s = true -> String.prefix a s = true.
Proof.
  revert s. induction a as [|c a IH]; intros s; simpl.
  - intros _. apply prefix_nil.
  - destruct s as [|d s]; simpl; [discriminate|].
    destruct (ascii_dec c d); [apply IH | discriminate].
Qed.

Lemma contains_append_l (a b s : string) :
  contains (a +:+ b) s = true -> contains a s = true.
Proof.
  induction s as [|d s IH]; cbn [contains]; intros H.
  - apply orb_true_iff in H as [H|H]; [|discriminate].
    now rewrite (prefix_append_l _ _ _ H).
  - apply orb_true_iff in H as [H|H].
    + now rewrite (prefix_append_l _ _ _ H).
    + rewrite (IH H). apply orb_true_r.
Qed.

(** A candidate line holding the canonical text ['S<speed> M3'] holds the
    text the program looks for, ['S<speed> ']: such a file is skipped. *)
Lemma canonical_text_matches (spindle_speed line : string) :
  contains (canonical_text spindle_speed) line = true ->
  contains (match_text spindle_speed) line = true.
Proof.
  intros H. apply contains_append_l with (b := "M3").
  replace (match_text spindle_speed +:+ "M3")
    with (canonical_text spindle_speed); [exact H|].
  unfold canonical_text, match_text. simpl. f_equal.
  now rewrite append_assoc.
Qed.

(** ** C1: when the rewriter skips a file *)

(** C1, as the code has it: the call returns without writing exactly when the
    first line starting with ['S'] holds the text ['S<speed> '] (prefix, speed
    and one space, without the ['M3']); the line written in place of a
    candidate is that same text followed by ['M3'] and a line feed. *)
Theorem skip_iff_match_text (spindle_speed text : string) :
  (rewrite_text spindle_speed text = Skipped
   <-> exists line,
         first_directive (readlines text) = Some line
         /\ contains (match_text spindle_speed) line = true)
  /\ replacement_line spindle_speed
     = match_text spindle_speed +:+ "M3" +:+ nl.
Proof.
  split; [|apply replacement_line_split].
  destruct (has_directive (readlines text)) eqn:Hd.
  - destruct (first_directive_split _ Hd) as (pre & line & post & E & Hp & Hl).
    rewrite (rewrite_text_directive _ _ _ _ _ E Hp Hl).
    rewrite E, (first_directive_at _ _ _ Hp Hl).
    destruct (contains (match_text spindle_speed) line) eqn:Hc; split.
    + intros _. now exists line.
    + reflexivity.
    + discriminate.
    + intros (l & Hf & Hm). congruence.
  - rewrite (rewrite_text_no_directive _ _ Hd), (first_directive_none _ Hd).
    split; [discriminate|]. intros (l & Hf & _). discriminate.
Qed.

(** C1 as stated fails: with speed ["1000"], the file ['S1000 M5\n'] is
    skipped although its first ['S'] line does not hold ['S1000 M3']. *)
Lemma skip_without_canonical_text :
  ~ (rewrite_text "1000" ("S1000 M5" +:+ nl) = Skipped
     <-> exists line,
           first_directive (readlines ("S1000 M5" +:+ nl)) = Some line
           /\ contains (canonical_text "1000") line = true).
Proof.
  intros [H _]. destruct (H eq_refl) as (line & Hf & Hc).
  vm_compute in Hf. injection Hf as <-. vm_compute in Hc. discriminate.
Qed.

(** ** The text layer *)

Lemma lacks_append (c : ascii) (a b : string) :
  lacks c (a +:+ b) = lacks c a && lacks c b.
Proof.
  induction a as [|d a IH]; simpl; [reflexivity|].
  now rewrite IH, andb_assoc.
Qed.

Lemma lacks_writelines (c : ascii) (lines : list string) :
  lacks c (writelines lines) = forallb (lacks c) lines.
Proof.
  induction lines as [|l ls IH]; [reflexivity|].
  rewrite writelines_cons, lacks_append, IH. reflexivity.
Qed.

(** A text that was read holds no carriage return. *)
Lemma universal_newlines_lacks_CR (disk : string) :
  lacks CR (universal_newlines disk) = true.
Proof.
  enough (H : lacks CR (universal_newlines disk) = true
              /\ forall c, lacks CR (universal_newlines (String c disk)) = true)
    by apply H.
  induction disk as [|d rest [IH1 IH2]].
  - split; [reflexivity|]. intros c. simpl.
    destruct (Ascii.eqb c CR) eqn:E; simpl; [reflexivity|]. now rewrite E.
  - split; [apply IH2|]. intros c.
    cbn [universal_newlines]. fold universal_newlines.
    destruct (Ascii.eqb c CR) eqn:E.
    + cbn [lacks]. destruct (Ascii.eqb d LF); cbn [Ascii.eqb];
        [exact IH1 | apply IH2].
    + cbn [lacks]. rewrite E. apply IH2.
Qed.

(** A text without carriage return is read back as it was written, on
    either platform. *)
Lemma read_written (fl : flavour) (text : string) :
  lacks CR text = true ->
  universal_newlines (write_newlines fl text) = text.
Proof.
  induction text as [|c rest IH]; [reflexivity|].
  cbn [lacks]. intros H. apply andb_true_iff in H as [Hc Hr].
  apply negb_true_iff in Hc. cbn [write_newlines].
  destruct (Ascii.eqb c LF) eqn:E.
  - apply Ascii.eqb_eq in E. subst c.
    destruct fl; cbn [universal_newlines Ascii.eqb]; fold universal_newlines;
      simpl; now rewrite (IH Hr).
  - cbn [universal_newlines]. fold universal_newlines.
    rewrite Hc. now rewrite (IH Hr).
Qed.

Lemma lacks_CR_replacement_line (spindle_speed : string) :
  lacks CR spindle_speed = true ->
  lacks CR (replacement_line spindle_speed) = true.
Proof.
  intros H. unfold replacement_line. rewrite !lacks_append, H. reflexivity.
Qed.

(** The rewriter brings no carriage return that the speed does not hold. *)
Lemma text_after_lacks_CR (spindle_speed text : string) :
  lacks CR spindle_speed = true ->
  lacks CR text = true ->
  lacks CR (text_after spindle_speed text) = true.
Proof.
  intros Hv Ht. unfold text_after.
  destruct (has_directive (readlines text)) eqn:Hd.
  - destruct (first_directive_split _ Hd) as (pre & line & post & E & Hp & Hl).
    rewrite (rewrite_text_directive _ _ _ _ _ E Hp Hl).
    destruct (contains (match_text spindle_speed) line); [exact Ht|].
    rewrite <- (writelines_readlines text), E, lacks_writelines in Ht.
    rewrite lacks_writelines. rewrite forallb_app in *. cbn [forallb] in *.
    apply andb_true_iff in Ht as [H1 H2].
    apply andb_true_iff in H2 as [_ H2].
    now rewrite H1, H2, lacks_CR_replacement_line.
  - now rewrite (rewrite_text_no_directive _ _ Hd).
Qed.

(** What a reader finds in the file after a call is the text the call left,
    for a speed without carriage return. *)
Lemma disk_after_read (fl : flavour) (spindle_speed disk : string) :
  lacks CR spindle_speed = true ->
  universal_newlines (disk_after fl spindle_speed disk)
  = text_after spindle_speed (universal_newlines disk).
Proof.
  intros Hv.
  pose proof (text_after_lacks_CR spindle_speed (universal_newlines disk) Hv
                (universal_newlines_lacks_CR disk)) as Ht.
  unfold disk_after, text_after in *.
  destruct (rewrite_text spindle_speed (universal_newlines disk));
    [reflexivity|].
  now apply read_written.
Qed.

Lemma lines_after_read (fl : flavour) (spindle_speed disk : string) :
  lacks CR spindle_speed = true ->
  lines_after fl spindle_speed disk
  = readlines (text_after spindle_speed (universal_newlines disk)).
Proof.
  intros Hv. unfold lines_after, lines_on_disk.
  now rewrite disk_after_read.
Qed.

(** A call on the text a call left: it returns early when there is a line
    starting with ['S'], and writes the text back otherwise. *)
Lemma rewrite_text_again (spindle_speed text : string) :
  single_line spindle_speed = true ->
  rewrite_text spindle_speed (text_after spindle_speed text)
  = if has_directive (readlines text) then Skipped else Written text.
Proof.
  intros Hs. destruct (has_directive (readlines text)) eqn:Hd.
  - destruct (first_directive_split _ Hd) as (pre & line & post & E & Hp & Hl).
    pose proof (written_lines_directive _ _ _ _ _ Hs E Hp Hl) as Ha.
    destruct (contains (match_text spindle_speed) line) eqn:Hc.
    + now rewrite (rewrite_text_directive _ _ _ _ _ Ha Hp Hl), Hc.
    + destruct (replacement_line_matches spindle_speed) as [Hr Hm].
      now rewrite (rewrite_text_directive _ _ _ _ _ Ha Hp Hr), Hm.
  - unfold text_after at 1. rewrite (rewrite_text_no_directive _ _ Hd).
    now apply rewrite_text_no_directive.
Qed.

(** ** C2: the scope of the edit *)

Lemma replacement_line_differs (spindle_speed line : string) :
  contains (match_text spindle_speed) line = false ->
  String.eqb line (replacement_line spindle_speed) = false.
Proof.
  intros H. apply String.eqb_neq. intros ->.
  destruct (replacement_line_matches spindle_speed) as [_ Hm]. congruence.
Qed.

(** C2, as the code has it: for a speed with neither line feed nor carriage
    return and a file with a line starting with ['S'], the lines a reader
    finds before and after the first such line are the same after the call
    as before; that line is kept too when it holds ['S<speed> '] (the call
    returns early, the file is untouched and no line differs), and is
    otherwise replaced by a different line (exactly one line differs, at
    its position). *)
Theorem single_edit_scope (fl : flavour) (spindle_speed disk : string) :
  single_line spindle_speed = true ->
  lacks CR spindle_speed = true ->
  has_directive (lines_on_disk disk) = true ->
  exists pre line post,
    lines_on_disk disk = pre ++ line :: post
    /\ has_directive pre = false
    /\ is_directive line = true
    /\ lines_after fl spindle_speed disk
       = pre ++ (if contains (match_text spindle_speed) line then line
                 else replacement_line spindle_speed) :: post
    /\ differing_lines 0 (lines_on_disk disk)
                       (lines_after fl spindle_speed disk)
       = (if contains (match_text spindle_speed) line then []
          else [List.length pre])
    /\ (contains (match_text spindle_speed) line = true ->
        disk_after fl spindle_speed disk = disk).
Proof.
  intros Hs Hcr Hd. unfold lines_on_disk in *.
  destruct (first_directive_split _ Hd) as (pre & line & post & E & Hp & Hl).
  exists pre, line, post.
  pose proof (written_lines_directive _ _ _ _ _ Hs E Hp Hl) as Ha.
  rewrite <- (lines_after_read fl _ _ Hcr) in Ha.
  split; [exact E|]. split; [exact Hp|]. split; [exact Hl|].
  split; [exact Ha|]. split.
  - rewrite Ha, E, differing_lines_replace.
    destruct (contains (match_text spindle_speed) line) eqn:Hc.
    + now rewrite String.eqb_refl.
    + now rewrite (replacement_line_differs _ _ Hc).
  - intros Hc. unfold disk_after.
    now rewrite (rewrite_text_directive _ _ _ _ _ E Hp Hl), Hc.
Qed.

Lemma single_edit_scope_witness :
  single_line "1000" = true
  /\ lacks CR "1000" = true
  /\ has_directive
       (lines_on_disk ("G1 X1" +:+ String CR nl +:+ "S500" +:+ String CR nl))
     = true
  /\ exists pre line post,
       lines_on_disk ("G1 X1" +:+ String CR nl +:+ "S500" +:+ String CR nl)
       = pre ++ line :: post
       /\ has_directive pre = false
       /\ is_directive line = true
       /\ lines_after Windows "1000"
            ("G1 X1" +:+ String CR nl +:+ "S500" +:+ String CR nl)
          = pre ++ (if contains (match_text "1000") line then line
                    else replacement_line "1000") :: post
       /\ differing_lines 0
            (lines_on_disk
               ("G1 X1" +:+ String CR nl +:+ "S500" +:+ String CR nl))
            (lines_after Windows "1000"
               ("G1 X1" +:+ String CR nl +:+ "S500" +:+ String CR nl))
          = (if contains (match_text "1000") line then []
             else [List.length pre])
       /\ (contains (match_text "1000") line = true ->
           disk_after Windows "1000"
             ("G1 X1" +:+ String CR nl +:+ "S500" +:+ String CR nl)
           = "G1 X1" +:+ String CR nl +:+ "S500" +:+ String CR nl).
Proof.
  split; [reflexivity|]. split; [reflexivity|]. split; [reflexivity|].
  apply (single_edit_scope Windows "1000"); reflexivity.
Defined.

(** C2 as stated fails: with speed ["1000"], the file ['S1000 M3\n'] has a
    line starting with ['S'] and no line of it differs after the call, on
    either platform. *)
Lemma single_edit_none_when_skipped :
  ~ (has_directive (lines_on_disk ("S1000 M3" +:+ nl)) = true ->
     List.length (differing_lines 0 (lines_on_disk ("S1000 M3" +:+ nl))
                                  (lines_after Posix "1000" ("S1000 M3" +:+ nl)))
     = 1)
  /\ ~ (has_directive (lines_on_disk ("S1000 M3" +:+ String CR nl)) = true ->
        List.length
          (differing_lines 0 (lines_on_disk ("S1000 M3" +:+ String CR nl))
                           (lines_after Windows "1000"
                                        ("S1000 M3" +:+ String CR nl)))
        = 1).
Proof.
  split; intros H; specialize (H eq_refl); vm_compute in H; discriminate.
Qed.

(** With a line feed or a carriage return in the speed the replacement is
    read as two lines, so the lines after the candidate no longer sit where
    they were. *)
Example single_edit_needs_no_line_break :
  differing_lines 0 (lines_on_disk ("S5" +:+ nl +:+ "G1" +:+ nl))
                  (lines_after Posix ("1" +:+ nl +:+ "2")
                               ("S5" +:+ nl +:+ "G1" +:+ nl))
  = [0; 1; 2]
  /\ differing_lines 0 (lines_on_disk ("S5" +:+ nl +:+ "G1" +:+ nl))
                     (lines_after Posix ("1000" +:+ String CR EmptyString)
                                  ("S5" +:+ nl +:+ "G1" +:+ nl))
     = [0; 1; 2].
Proof. split; reflexivity. Qed.

(** ** C3: running the rewriter twice *)

(** C3, as the code has it: for a speed with neither line feed nor carriage
    return, a second call with the same speed leaves the file the first
    call left as it is, character for character. *)
Theorem rewrite_idempotent (fl : flavour) (spindle_speed disk : string) :
  single_line spindle_speed = true ->
  lacks CR spindle_speed = true ->
  disk_after fl spindle_speed (disk_after fl spindle_speed disk)
  = disk_after fl spindle_speed disk.
Proof.
  intros Hs Hcr. unfold disk_after at 1.
  rewrite (disk_after_read fl _ _ Hcr), (rewrite_text_again _ _ Hs).
  destruct (has_directive (readlines (universal_newlines disk))) eqn:Hd.
  - reflexivity.
  - unfold disk_after. now rewrite (rewrite_text_no_directive _ _ Hd).
Qed.

Lemma rewrite_idempotent_witness :
  single_line "1000" = true
  /\ lacks CR "1000" = true
  /\ disk_after Windows "1000"
       (disk_after Windows "1000" ("G1 X1" +:+ nl +:+ "S500" +:+ nl))
     = disk_after Windows "1000" ("G1 X1" +:+ nl +:+ "S500" +:+ nl).
Proof.
  split; [reflexivity|]. split; [reflexivity|].
  apply rewrite_idempotent; reflexivity.
Defined.

(** C3 as stated fails: with the speed ['1\n2'], and with the speed
    ['1000\r'], every call on ['S5\n'] and on its results adds a line. *)
Lemma rewrite_twice_with_line_break :
  disk_after Posix ("1" +:+ nl +:+ "2")
             (disk_after Posix ("1" +:+ nl +:+ "2") ("S5" +:+ nl))
  <> disk_after Posix ("1" +:+ nl +:+ "2") ("S5" +:+ nl)
  /\ disk_after Posix ("1000" +:+ String CR EmptyString)
                (disk_after Posix ("1000" +:+ String CR EmptyString)
                            ("S5" +:+ nl))
     <> disk_after Posix ("1000" +:+ String CR EmptyString) ("S5" +:+ nl).
Proof. split; vm_compute; discriminate. Qed.

(** ** C4: the line written in place of the candidate *)

(** C4: when the call does not return early, the text written is the text
    read with the first line starting with ['S'] replaced, whole, by
    ['S' + speed + ' M3\n']. *)
Theorem directive_replaced (spindle_speed text : string)
        (pre post : list string) (line : string) :
  readlines text = pre ++ line :: post ->
  has_directive pre = false ->
  is_directive line = true ->
  rewrite_text spindle_speed text <> Skipped ->
  text = writelines pre +:+ line +:+ writelines post
  /\ rewrite_text spindle_speed text
     = Written (writelines pre +:+ ("S" +:+ spindle_speed +:+ " M3" +:+ nl)
                  +:+ writelines post).
Proof.
  intros E Hp Hl Hn. split.
  - rewrite <- (writelines_readlines text), E.
    now rewrite writelines_app, writelines_cons.
  - rewrite (rewrite_text_directive _ _ _ _ _ E Hp Hl) in *.
    destruct (contains (match_text spindle_speed) line); [congruence|].
    now rewrite writelines_app, writelines_cons.
Qed.

Lemma directive_replaced_witness :
  rewrite_text "1000" ("G1 X1" +:+ nl +:+ "S500" +:+ nl +:+ "G1 Y2" +:+ nl)
  <> Skipped
  /\ rewrite_text "1000" ("G1 X1" +:+ nl +:+ "S500" +:+ nl +:+ "G1 Y2" +:+ nl)
     = Written ("G1 X1" +:+ nl +:+ "S1000 M3" +:+ nl +:+ "G1 Y2" +:+ nl).
Proof.
  assert (H : rewrite_text "1000"
                ("G1 X1" +:+ nl +:+ "S500" +:+ nl +:+ "G1 Y2" +:+ nl)
              <> Skipped) by (vm_compute; discriminate).
  split; [exact H|].
  exact (proj2 (directive_replaced
                  "1000" ("G1 X1" +:+ nl +:+ "S500" +:+ nl +:+ "G1 Y2" +:+ nl)
                  ["G1 X1" +:+ nl] ["G1 Y2" +:+ nl] ("S500" +:+ nl)
                  eq_refl eq_refl eq_refl H)).
Defined.

(** ** C5: the number of lines *)

(** C5, as the code has it: for a speed with neither line feed nor carriage
    return, a reader finds as many lines in the file after the call as
    before. *)
Theorem line_count_preserved (fl : flavour) (spindle_speed disk : string) :
  single_line spindle_speed = true ->
  lacks CR spindle_speed = true ->
  List.length (lines_after fl spindle_speed disk)
  = List.length (lines_on_disk disk).
Proof.
  intros Hs Hcr. rewrite (lines_after_read fl _ _ Hcr). unfold lines_on_disk.
  destruct (has_directive (readlines (universal_newlines disk))) eqn:Hd.
  - destruct (first_directive_split _ Hd) as (pre & line & post & E & Hp & Hl).
    rewrite (written_lines_directive _ _ _ _ _ Hs E Hp Hl), E.
    now rewrite !length_app.
  - now rewrite written_lines_no_directive.
Qed.

Lemma line_count_preserved_witness :
  single_line "1000" = true
  /\ lacks CR "1000" = true
  /\ List.length (lines_after Posix "1000"
                              ("G1 X1" +:+ String CR nl +:+ "S500"))
     = List.length (lines_on_disk ("G1 X1" +:+ String CR nl +:+ "S500")).
Proof.
  split; [reflexivity|]. split; [reflexivity|].
  apply line_count_preserved; reflexivity.
Defined.

(** C5 as stated fails: with the speed ['1\n2'], and with the speed
    ['1000\r'], the one-line file ['S5\n'] has two lines after the call. *)
Lemma line_count_with_line_break :
  List.length (lines_after Posix ("1" +:+ nl +:+ "2") ("S5" +:+ nl))
  <> List.length (lines_on_disk ("S5" +:+ nl))
  /\ List.length (lines_after Posix ("1000" +:+ String CR EmptyString)
                              ("S5" +:+ nl))
     <> List.length (lines_on_disk ("S5" +:+ nl)).
Proof. split; vm_compute; discriminate. Qed.

(** The buffer handed to [writelines] has one entry per line read, whatever
    the speed: only a line feed inside the speed changes the count. *)
Lemma updated_lines_length (spindle_speed : string)
      (lines updated_lines : list string) :
  scan_lines spindle_speed lines false [] = Some updated_lines ->
  List.length updated_lines = List.length lines.
Proof.
  destruct (has_directive lines) eqn:Hd.
  - destruct (first_directive_split _ Hd) as (pre & line & post & -> & Hp & Hl).
    rewrite scan_lines_directive by assumption.
    destruct (contains (match_text spindle_speed) line); [discriminate|].
    intros H. injection H as <-. simpl. now rewrite !length_app.
  - rewrite scan_lines_no_directive by assumption.
    intros H. now injection H as <-.
Qed.

(** ** C6: files without directive line *)

Lemma lacks_CR_universal_newlines (disk : string) :
  lacks CR disk = true -> universal_newlines disk = disk.
Proof.
  induction disk as [|c rest IH]; [reflexivity|].
  cbn [lacks]. intros H. apply andb_true_iff in H as [Hc Hr].
  apply negb_true_iff in Hc.
  cbn [universal_newlines]. fold universal_newlines.
  now rewrite Hc, (IH Hr).
Qed.

Lemma write_newlines_posix (text : string) : write_newlines Posix text = text.
Proof.
  induction text as [|c rest IH]; [reflexivity|].
  cbn [write_newlines]. rewrite IH.
  destruct (Ascii.eqb c LF) eqn:E; [|reflexivity].
  apply Ascii.eqb_eq in E. now subst c.
Qed.

(** On POSIX the files without carriage return have native line endings. *)
Lemma native_newlines_posix (disk : string) :
  lacks CR disk = true -> native_newlines Posix disk = true.
Proof.
  intros H. unfold native_newlines.
  rewrite write_newlines_posix, (lacks_CR_universal_newlines _ H).
  apply String.eqb_refl.
Qed.

(** C6, as the code has it: a file none of whose lines starts with ['S'] is
    written back through the text layer.  A reader finds in it the text it
    found before, and the file is the same character for character when its
    line endings are those the platform writes; other line endings are
    replaced by the platform's. *)
Theorem no_directive_passthrough (fl : flavour) (spindle_speed disk : string) :
  has_directive (lines_on_disk disk) = false ->
  disk_after fl spindle_speed disk
  = write_newlines fl (universal_newlines disk)
  /\ universal_newlines (disk_after fl spindle_speed disk)
     = universal_newlines disk
  /\ (native_newlines fl disk = true ->
      disk_after fl spindle_speed disk = disk).
Proof.
  intros H. unfold lines_on_disk in H.
  assert (Hd : disk_after fl spindle_speed disk
               = write_newlines fl (universal_newlines disk)).
  { unfold disk_after. now rewrite (rewrite_text_no_directive _ _ H). }
  split; [exact Hd|]. split.
  - rewrite Hd. apply read_written, universal_newlines_lacks_CR.
  - unfold native_newlines. intros Hn. apply String.eqb_eq in Hn.
    now rewrite Hd.
Qed.

Lemma no_directive_passthrough_witness :
  has_directive (lines_on_disk ("G1 X1" +:+ String CR nl +:+ "G1 Y2"
                                        +:+ String CR nl)) = false
  /\ native_newlines Windows
       ("G1 X1" +:+ String CR nl +:+ "G1 Y2" +:+ String CR nl) = true
  /\ disk_after Windows "1000"
       ("G1 X1" +:+ String CR nl +:+ "G1 Y2" +:+ String CR nl)
     = "G1 X1" +:+ String CR nl +:+ "G1 Y2" +:+ String CR nl.
Proof.
  split; [reflexivity|]. split; [reflexivity|].
  exact (proj2 (proj2 (no_directive_passthrough
                         Windows "1000"
                         ("G1 X1" +:+ String CR nl +:+ "G1 Y2"
                                  +:+ String CR nl) eq_refl)) eq_refl).
Defined.

(** C6 as stated fails: a file without line starting with ['S'] whose line
    endings are not the platform's is not the same after the call: on POSIX
    ['G1 X1\r\n'] becomes ['G1 X1\n'], on Windows ['G1 X1\n'] becomes
    ['G1 X1\r\n']. *)
Lemma foreign_line_endings_rewritten :
  ~ (has_directive (lines_on_disk ("G1 X1" +:+ String CR nl)) = false ->
     disk_after Posix "1000" ("G1 X1" +:+ String CR nl)
     = "G1 X1" +:+ String CR nl)
  /\ ~ (has_directive (lines_on_disk ("G1 X1" +:+ nl)) = false ->
        disk_after Windows "1000" ("G1 X1" +:+ nl) = "G1 X1" +:+ nl).
Proof.
  split; intros H; specialize (H eq_refl); vm_compute in H; discriminate.
Qed.

(** ** C10: the line feed of the replacement line *)

Lemma endswith_refl (s : string) : endswith s s = true.
Proof. destruct s; cbn [endswith]; now rewrite String.eqb_refl. Qed.

Lemma endswith_append (a b suf : string) :
  endswith b suf = true -> endswith (a +:+ b) suf = true.
Proof.
  intros H. induction a as [|c a IH]; [exact H|].
  change (String c a +:+ b) with (String c (a +:+ b)). cbn [endswith].
  rewrite IH. apply orb_true_r.
Qed.

Lemma append_not_empty (a b : string) :
  b <> EmptyString -> a +:+ b <> EmptyString.
Proof. destruct a; simpl; [trivial | discriminate]. Qed.

(** Whether a text ends with a line feed is decided by any non-empty tail. *)
Lemma endswith_nl_append (a b : string) :
  b <> EmptyString -> endswith (a +:+ b) nl = endswith b nl.
Proof.
  intros Hb. induction a as [|c a IH]; [reflexivity|].
  change (String c a +:+ b) with (String c (a +:+ b)). cbn [endswith].
  rewrite IH. unfold nl at 1. cbn [String.eqb].
  apply (append_not_empty a) in Hb. apply String.eqb_neq in Hb.
  rewrite Hb. now destruct (Ascii.eqb c LF).
Qed.

Lemma is_directive_not_empty (line : string) :
  is_directive line = true -> line <> EmptyString.
Proof. intros H ->. discriminate. Qed.

(** C10: the line written in place of the candidate ends with a line feed
    whatever the candidate ended with; when the candidate was the last line
    of the file and had no line feed, the text written ends with a line feed
    and the text read did not. *)
Theorem replacement_ends_with_line_feed (spindle_speed text : string)
        (pre post : list string) (line : string) :
  readlines text = pre ++ line :: post ->
  has_directive pre = false ->
  is_directive line = true ->
  contains (match_text spindle_speed) line = false ->
  endswith (replacement_line spindle_speed) nl = true
  /\ rewrite_text spindle_speed text
     = Written (writelines (pre ++ replacement_line spindle_speed :: post))
  /\ (post = [] ->
      endswith line nl = false ->
      endswith text nl = false
      /\ endswith (text_after spindle_speed text) nl = true).
Proof.
  intros E Hp Hl Hc.
  assert (Hr : endswith (replacement_line spindle_speed) nl = true).
  { unfold replacement_line. rewrite <- !append_assoc.
    apply endswith_append, endswith_refl. }
  assert (Hw : rewrite_text spindle_speed text
               = Written (writelines (pre ++ replacement_line spindle_speed
                                          :: post))).
  { now rewrite (rewrite_text_directive _ _ _ _ _ E Hp Hl), Hc. }
  split; [exact Hr|]. split; [exact Hw|].
  intros -> Hn. split.
  - rewrite <- (writelines_readlines text), E, writelines_app.
    rewrite endswith_nl_append; [exact Hn|].
    unfold writelines. simpl. now apply is_directive_not_empty.
  - unfold text_after. rewrite Hw, writelines_app. now apply endswith_append.
Qed.

Lemma replacement_ends_with_line_feed_witness :
  contains (match_text "1000") "S500" = false
  /\ endswith "S500" nl = false
  /\ endswith ("G1 X1" +:+ nl +:+ "S500") nl = false
  /\ endswith (text_after "1000" ("G1 X1" +:+ nl +:+ "S500")) nl = true.
Proof.
  split; [reflexivity|]. split; [reflexivity|].
  exact (proj2 (proj2 (replacement_ends_with_line_feed
                         "1000" ("G1 X1" +:+ nl +:+ "S500")
                         ["G1 X1" +:+ nl] [] "S500"
                         eq_refl eq_refl eq_refl eq_refl))
               eq_refl eq_refl).
Defined.

(** ** The file system *)

(** Induction on directory trees. *)
Lemma node_induction (P : node -> Prop) :
  (forall name text, P (File name text)) ->
  (forall name children, Forall P children -> P (Dir name children)) ->
  forall n, P n.
Proof.
  intros HFile HDir. fix IH 1. intros [name text|name children].
  - apply HFile.
  - apply HDir. induction children as [|c cs IHcs]; constructor.
    + apply IH.
    + exact IHcs.
Qed.

Lemma existsb_map {A B : Type} (g : B -> bool) (h : A -> B) (l : list A) :
  existsb g (map h l) = existsb (fun x => g (h x)) l.
Proof. induction l as [|x l IH]; simpl; [reflexivity | now rewrite IH]. Qed.

Lemma existsb_ext_Forall {A : Type} (g h : A -> bool) (l : list A) :
  Forall (fun x => g x = h x) l -> existsb g l = existsb h l.
Proof.
  induction 1 as [|x l Hx _ IH]; simpl; [reflexivity | now rewrite Hx, IH].
Qed.

(** Rewriting a file changes no name: the same paths name files. *)
Lemma is_file_at_map_file (f : string -> string) (n : node) :
  forall p q, is_file_at q (map_file f p n) = is_file_at q n.
Proof.
  induction n as [name text|name children IH] using node_induction;
    intros p q.
  - destruct p as [|a [|b p]]; simpl; try reflexivity.
    now destruct (String.eqb name a).
  - destruct p as [|a [|b p]]; simpl; try reflexivity.
    destruct (String.eqb name a); [|reflexivity].
    destruct q as [|c [|d q]]; simpl; try reflexivity.
    f_equal. rewrite existsb_map. apply existsb_ext_Forall.
    revert IH. apply Forall_impl. intros c' Hc. apply Hc.
Qed.

Lemma is_file_at_update (f : string -> string) (p q : path)
      (entries : list node) :
  existsb (is_file_at q) (map (map_file f p) entries)
  = existsb (is_file_at q) entries.
Proof.
  rewrite existsb_map. apply existsb_ext_Forall, Forall_forall.
  intros n _. apply is_file_at_map_file.
Qed.

Lemma filenames_update (f : string -> string) (p : path) (entries : list node) :
  filenames (map (map_file f p) entries) = filenames entries.
Proof.
  unfold filenames. induction entries as [|n ns IH]; [reflexivity|].
  simpl. rewrite IH. f_equal.
  destruct n as [name text|name children]; destruct p as [|a [|b p]];
    simpl; try reflexivity; now destruct (String.eqb name a).
Qed.

Lemma dirnames_update (f : string -> string) (p : path) (entries : list node) :
  dirnames (map (map_file f p) entries) = dirnames entries.
Proof.
  unfold dirnames. induction entries as [|n ns IH]; [reflexivity|].
  simpl. rewrite IH. f_equal.
  destruct n as [name text|name children]; destruct p as [|a [|b p]];
    simpl; try reflexivity; now destruct (String.eqb name a).
Qed.

Lemma flat_map_map_ext {A B : Type} (g : A -> list B) (h : A -> A)
      (l : list A) :
  Forall (fun x => g (h x) = g x) l -> flat_map g (map h l) = flat_map g l.
Proof.
  induction 1 as [|x l Hx _ IH]; simpl; [reflexivity | now rewrite Hx, IH].
Qed.

Lemma os_walk_node_map_file (f : string -> string) (n : node) :
  forall p top, os_walk_node top (map_file f p n) = os_walk_node top n.
Proof.
  induction n as [name text|name children IH] using node_induction;
    intros p top.
  - destruct p as [|a [|b p]]; simpl; try reflexivity.
    now destruct (String.eqb name a).
  - destruct p as [|a [|b p]]; simpl; try reflexivity.
    destruct (String.eqb name a); [|reflexivity]. simpl.
    rewrite filenames_update, dirnames_update. f_equal.
    apply flat_map_map_ext. revert IH. apply Forall_impl.
    intros c Hc. apply Hc.
Qed.

(** The rewriter changes no name, so [os.walk] lists the same triples
    whether a directory is read before or after files were rewritten. *)
Lemma os_walk_update (f : string -> string) (p top : path)
      (entries : list node) :
  os_walk top (map (map_file f p) entries) = os_walk top entries.
Proof.
  unfold os_walk. rewrite filenames_update, dirnames_update. f_equal.
  apply flat_map_map_ext, Forall_forall. intros n _.
  apply os_walk_node_map_file.
Qed.

Lemma filenames_are_files (name : string) (entries : list node) :
  In name (filenames entries) -> existsb (is_file_at [name]) entries = true.
Proof.
  unfold filenames. induction entries as [|n ns IH]; simpl; [tauto|].
  intros H. apply in_app_or in H as [H|H].
  - destruct n as [name' text|name' children]; simpl in H; [|tauto].
    destruct H as [->|[]]. simpl. now rewrite String.eqb_refl.
  - rewrite (IH H). apply orb_true_r.
Qed.

(** Every file name [os.walk] lists, joined to the directory it is listed
    for, is the path of a file. *)
Lemma os_walk_node_lists_files (n : node) :
  forall top root dirs files name,
    In (root, dirs, files) (os_walk_node top n) ->
    In name files ->
    exists rel, root = top ++ rel /\ is_file_at (rel ++ [name]) n = true.
Proof.
  induction n as [name' text|name' children IH] using node_induction;
    intros top root dirs files name Hin Hname; simpl in Hin; [tauto|].
  destruct Hin as [Heq|Hin].
  - injection Heq as <- <- <-. exists [name']. split; [reflexivity|].
    simpl. rewrite String.eqb_refl. simpl. now apply filenames_are_files.
  - apply in_flat_map in Hin as (c & Hc & Hin).
    rewrite Forall_forall in IH.
    destruct (IH c Hc _ _ _ _ _ Hin Hname) as (rel & -> & Hf).
    exists (name' :: rel). split; [now rewrite <- app_assoc|].
    rewrite <- app_comm_cons.
    destruct (rel ++ [name]) as [|x xs] eqn:E; [now destruct rel|].
    simpl. rewrite String.eqb_refl. simpl.
    apply existsb_exists. now exists c.
Qed.

Lemma os_walk_lists_files (entries : list node) (root : path)
      (dirs files : list string) (name : string) :
  In (root, dirs, files) (os_walk [] entries) ->
  In name files ->
  existsb (is_file_at (root ++ [name])) entries = true.
Proof.
  unfold os_walk. intros [Heq|Hin] Hname.
  - injection Heq as <- <- <-. now apply filenames_are_files.
  - apply in_flat_map in Hin as (c & Hc & Hin).
    destruct (os_walk_node_lists_files c _ _ _ _ _ Hin Hname) as (rel & -> & Hf).
    apply existsb_exists. now exists c.
Qed.

Lemma visited_are_files (entries : list node) (p : path) :
  In p (visited (os_walk [] entries)) ->
  existsb (is_file_at p) entries = true.
Proof.
  unfold visited. intros H.
  apply in_flat_map in H as ([[root dirs] files] & Ht & Hp).
  simpl in Hp. apply in_map_iff in Hp as (file & <- & Hfile).
  apply filter_In in Hfile as [Hfile _].
  now apply os_walk_lists_files with (dirs := dirs) (files := files).
Qed.

(** ** The loops of the walker *)

Section Loops.

Variable spindle_speed : string.
Variable total : nat.

Lemma is_file_at_rewrite_all (paths : list path) (q : path) :
  forall entries,
    existsb (is_file_at q) (rewrite_all spindle_speed paths entries)
    = existsb (is_file_at q) entries.
Proof.
  unfold rewrite_all. induction paths as [|p ps IH]; intros entries; simpl.
  - reflexivity.
  - now rewrite IH, is_file_at_update.
Qed.

Lemma advance_nil (st : walker_state) : advance spindle_speed total [] st = st.
Proof.
  destruct st. unfold advance. simpl. now rewrite Nat.add_0_r, !app_nil_r.
Qed.

Lemma advance_app (ps qs : list path) (st : walker_state) :
  advance spindle_speed total (ps ++ qs) st
  = advance spindle_speed total qs (advance spindle_speed total ps st).
Proof.
  unfold advance, rewrite_all. simpl.
  rewrite fold_left_app, length_app, Nat.add_assoc, seq_app, map_app.
  now rewrite <- !app_assoc.
Qed.

(** One turn of the inner loop on a file that passes the extension test. *)
Lemma process_file_tap (root : path) (st : walker_state) (file : string) :
  endswith file ".tap" = true ->
  existsb (is_file_at (root ++ [file])) (fs st) = true ->
  total <> 0 ->
  process_file spindle_speed total root st file
  = Ok (advance spindle_speed total [root ++ [file]] st).
Proof.
  intros Htap Hfile Htotal. unfold process_file, update_file_spindle_speed.
  rewrite Htap, Hfile. apply Nat.eqb_neq in Htotal. rewrite Htotal.
  unfold advance. simpl. now rewrite Nat.add_1_r.
Qed.

Lemma process_file_other (root : path) (st : walker_state) (file : string) :
  endswith file ".tap" = false ->
  process_file spindle_speed total root st file = Ok st.
Proof. intros H. unfold process_file. now rewrite H. Qed.

(** The inner loop, [for file in files]. *)
Lemma inner_loop (folder : list node) (root : path) (dirs : list string) :
  forall (files : list string) (st : walker_state),
    (forall q, existsb (is_file_at q) (fs st) = existsb (is_file_at q) folder) ->
    (forall p, In p (tap_paths_of (root, dirs, files)) ->
               existsb (is_file_at p) folder = true) ->
    (tap_paths_of (root, dirs, files) <> [] -> total <> 0) ->
    for_each (process_file spindle_speed total root) files st
    = Ok (advance spindle_speed total (tap_paths_of (root, dirs, files)) st).
Proof.
  induction files as [|file files IH]; intros st Hshape Hfiles Htotal.
  - simpl. now rewrite advance_nil.
  - simpl in *. destruct (endswith file ".tap") eqn:Htap.
    + simpl in *.
      rewrite process_file_tap; try assumption.
      * rewrite IH.
        -- now rewrite <- advance_app.
        -- intros q. simpl. now rewrite is_file_at_update.
        -- intros p Hp. apply Hfiles. now right.
        -- intros _. apply Htotal. discriminate.
      * rewrite Hshape. apply Hfiles. now left.
      * apply Htotal. discriminate.
    + rewrite process_file_other by assumption. now apply IH.
Qed.

(** The outer loop, [for root, dirs, files in os.walk(folder_path)]. *)
Lemma outer_loop (folder : list node) :
  forall (triples : list (path * list string * list string))
         (st : walker_state),
    (forall q, existsb (is_file_at q) (fs st) = existsb (is_file_at q) folder) ->
    (forall p, In p (visited triples) -> existsb (is_file_at p) folder = true) ->
    (visited triples <> [] -> total <> 0) ->
    for_each
      (fun st '(root, _, files) =>
         for_each (process_file spindle_speed total root) files st)
      triples st
    = Ok (advance spindle_speed total (visited triples) st).
Proof.
  induction triples as [|[[root dirs] files] triples IH];
    intros st Hshape Hfiles Htotal.
  - simpl. now rewrite advance_nil.
  - unfold visited in *. simpl in *.
    rewrite (inner_loop folder root dirs); try assumption.
    + rewrite IH.
      * now rewrite <- advance_app.
      * intros q. simpl. now rewrite is_file_at_rewrite_all.
      * intros p Hp. apply Hfiles, in_or_app. now right.
      * intros Hne. apply Htotal. intros Happ.
        apply app_eq_nil in Happ as [_ Happ]. contradiction.
    + intros p Hp. apply Hfiles, in_or_app. now left.
    + intros Hne. apply Htotal. intros Happ.
      apply app_eq_nil in Happ as [Happ _]. contradiction.
Qed.

End Loops.

(** ** What the walker goes through, and what it counts *)

Lemma flat_map_step {A B : Type} (f : A -> list B) (x : A) (l : list A) :
  flat_map f (x :: l) = f x ++ flat_map f l.
Proof. reflexivity. Qed.

Lemma eligible_snoc (top : path) (name : string) :
  eligible (top ++ [name]) = endswith name ".tap".
Proof. unfold eligible, basename. now rewrite last_last. Qed.

Lemma visited_app (xs ys : list (path * list string * list string)) :
  visited (xs ++ ys) = visited xs ++ visited ys.
Proof. apply flat_map_app. Qed.

Lemma visited_os_walk (top : path) (entries : list node) :
  visited (os_walk top entries)
  = tap_paths_of (top, dirnames entries, filenames entries)
    ++ visited (flat_map (os_walk_node top) entries).
Proof. reflexivity. Qed.

(** The files [os.walk] leads to below an entry: none below a file, which
    is listed by the directory that holds it. *)
Lemma visited_entries (entries : list node) :
  Forall (fun n => forall top,
              Permutation (visited (os_walk_node top n))
                          (filter eligible
                                  (match n with
                                   | File _ _ => []
                                   | Dir _ _ => files_of_node top n
                                   end))) entries ->
  forall top,
    Permutation (visited (os_walk top entries))
                (filter eligible (files_of top entries)).
Proof.
  intros HF top. rewrite visited_os_walk. unfold files_of.
  induction HF as [|n ns Hn _ IH]; [constructor|].
  destruct n as [name text|name children].
  - simpl in *. rewrite eligible_snoc.
    destruct (endswith name ".tap"); simpl; [constructor|]; exact IH.
  - rewrite !flat_map_step, visited_app, filter_app.
    change (tap_paths_of (top, dirnames (Dir name children :: ns),
                          filenames (Dir name children :: ns)))
      with (tap_paths_of (top, dirnames ns, filenames ns)).
    rewrite Permutation_app_swap_app.
    apply Permutation_app; [apply Hn | exact IH].
Qed.

Lemma visited_node (n : node) :
  forall top,
    Permutation (visited (os_walk_node top n))
                (filter eligible
                        (match n with
                         | File _ _ => []
                         | Dir _ _ => files_of_node top n
                         end)).
Proof.
  induction n as [name text|name children IH] using node_induction;
    intros top; [constructor|].
  change (os_walk_node top (Dir name children))
    with (os_walk (top ++ [name]) children).
  change (files_of_node top (Dir name children))
    with (files_of (top ++ [name]) children).
  now apply visited_entries.
Qed.

(** The paths the loops go through are the files, at any depth, whose name
    ends with [".tap"], each once. *)
Lemma visited_tap_files (top : path) (entries : list node) :
  Permutation (visited (os_walk top entries))
              (filter eligible (files_of top entries)).
Proof.
  apply visited_entries, Forall_forall. intros n _. apply visited_node.
Qed.

Lemma casefold_tap : casefold ".tap" = ".tap".
Proof. reflexivity. Qed.

Lemma endswith_casefold (s suf : string) :
  endswith s suf = true -> endswith (casefold s) (casefold suf) = true.
Proof.
  induction s as [|c s IH]; cbn [endswith]; intros H.
  - apply orb_true_iff in H as [H|H]; [|discriminate].
    apply String.eqb_eq in H. subst suf. reflexivity.
  - apply orb_true_iff in H as [H|H].
    + apply String.eqb_eq in H. subst suf. apply endswith_refl.
    + cbn [casefold endswith]. rewrite (IH H). apply orb_true_r.
Qed.

(** Whatever the flavour, a name that ends with [".tap"] matches. *)
Lemma eligible_matches (fl : flavour) (p : path) :
  eligible p = true -> matches fl p = true.
Proof.
  unfold eligible, matches. destruct fl; simpl; [trivial|].
  intros H. rewrite <- casefold_tap. now apply endswith_casefold.
Qed.

Lemma matches_snoc (fl : flavour) (top : path) (name : string) :
  matches fl (top ++ [name]) = fnmatch_tap fl name.
Proof. unfold matches, basename. now rewrite last_last. Qed.

Lemma filter_eligible_le (fl : flavour) (paths : list path) :
  List.length (filter eligible paths)
  <= List.length (filter (matches fl) paths).
Proof.
  induction paths as [|p ps IH]; [reflexivity|]. simpl.
  destruct (eligible p) eqn:E.
  - rewrite (eligible_matches fl p E). simpl. lia.
  - destruct (matches fl p); simpl; lia.
Qed.

Lemma rglob_entries (fl : flavour) (entries : list node) :
  Forall (fun n => forall top,
              List.length (rglob_node fl top n)
              = List.length (filter (matches fl) (files_of_node top n))
                + List.length (filter (matches fl) (dirs_of_node top n)))
         entries ->
  forall top,
    List.length (rglob_tap fl top entries)
    = List.length (filter (matches fl) (files_of top entries))
      + List.length (filter (matches fl) (dirs_of top entries)).
Proof.
  intros HF top. unfold rglob_tap, files_of, dirs_of.
  induction HF as [|n ns Hn _ IH]; [reflexivity|].
  rewrite !flat_map_step, !filter_app, !length_app, Hn, IH. lia.
Qed.

Lemma rglob_node_count (fl : flavour) (n : node) :
  forall top,
    List.length (rglob_node fl top n)
    = List.length (filter (matches fl) (files_of_node top n))
      + List.length (filter (matches fl) (dirs_of_node top n)).
Proof.
  induction n as [name text|name children IH] using node_induction;
    intros top.
  - simpl. rewrite matches_snoc.
    now destruct (fnmatch_tap fl name).
  - change (rglob_node fl top (Dir name children))
      with ((if fnmatch_tap fl name then [top ++ [name]] else [])
              ++ rglob_tap fl (top ++ [name]) children).
    change (files_of_node top (Dir name children))
      with (files_of (top ++ [name]) children).
    change (dirs_of_node top (Dir name children))
      with ((top ++ [name]) :: dirs_of (top ++ [name]) children).
    rewrite length_app, (rglob_entries fl children IH). cbn [filter].
    rewrite matches_snoc.
    destruct (fnmatch_tap fl name); simpl; lia.
Qed.

(** The total counts every entry whose name matches: the files and the
    directories. *)
Lemma total_files_count (fl : flavour) (folder : list node) :
  total_files fl folder
  = List.length (filter (matches fl) (files_of [] folder))
    + List.length (filter (matches fl) (dirs_of [] folder)).
Proof.
  apply rglob_entries, Forall_forall. intros n _. apply rglob_node_count.
Qed.

Lemma visited_le_total (fl : flavour) (folder : list node) :
  List.length (visited (os_walk [] folder)) <= total_files fl folder.
Proof.
  rewrite (Permutation_length (visited_tap_files [] folder)), total_files_count.
  pose proof (filter_eligible_le fl (files_of [] folder)). lia.
Qed.

(** A run never raises: each file handed to the rewriter is there, and the
    division is reached only after a file counted in the total. *)
Lemma update_spindle_speed_completes (fl : flavour) (folder : list node)
      (spindle_speed : string) :
  update_spindle_speed fl folder spindle_speed
  = Ok (advance spindle_speed (total_files fl folder)
                (visited (os_walk [] folder)) (initial_state folder)).
Proof.
  unfold update_spindle_speed. apply outer_loop with (folder := folder).
  - reflexivity.
  - apply visited_are_files.
  - intros Hne Hz. pose proof (visited_le_total fl folder) as Hle.
    rewrite Hz in Hle. destruct (visited (os_walk [] folder)); [congruence|].
    simpl in Hle. lia.
Qed.

(** ** C8: the files handed to the rewriter *)

(** C8: a run ends normally, and the rewriter was called on the files, at
    any depth, whose name ends with [".tap"]: on each of them once, and on no
    other file. *)
Theorem rewriter_called_on_tap_files (fl : flavour) (folder : list node)
        (spindle_speed : string) :
  exists st,
    update_spindle_speed fl folder spindle_speed = Ok st
    /\ Permutation (calls st) (filter eligible (files_of [] folder))
    /\ (forall p, In p (calls st)
                  <-> In p (files_of [] folder) /\ eligible p = true)
    /\ List.length (calls st)
       = List.length (filter eligible (files_of [] folder))
    /\ fs st = rewrite_all spindle_speed (calls st) folder.
Proof.
  eexists. split; [apply update_spindle_speed_completes|].
  pose proof (visited_tap_files [] folder) as HP.
  cbn [advance initial_state calls fs app].
  split; [exact HP|]. split; [|split].
  - intros p. rewrite <- filter_In. split; intros H.
    + now apply (Permutation_in _ HP).
    + now apply (Permutation_in _ (Permutation_sym HP)).
  - now apply Permutation_length.
  - reflexivity.
Qed.

(** ** C7 and C9: the two counts *)

(** What holds of the counts in every run: the progress lines count 1, 2,
    ... up to the final count, each against the same total; no count shown
    exceeds the total; the final count is the number of files whose name
    ends with [".tap"], and the total is the number of files and of
    directories whose name matches. *)
Lemma processed_never_exceeds_total (fl : flavour) (folder : list node)
      (spindle_speed : string) :
  exists st,
    update_spindle_speed fl folder spindle_speed = Ok st
    /\ progress st
       = map (fun k => (k, total_files fl folder))
             (List.seq 1 (processed_files st))
    /\ Forall (fun shown => fst shown <= snd shown) (progress st)
    /\ processed_files st <= total_files fl folder
    /\ processed_files st
       = List.length (filter eligible (files_of [] folder))
    /\ total_files fl folder
       = List.length (filter (matches fl) (files_of [] folder))
         + List.length (filter (matches fl) (dirs_of [] folder)).
Proof.
  eexists. split; [apply update_spindle_speed_completes|].
  pose proof (visited_le_total fl folder) as Hle.
  pose proof (Permutation_length (visited_tap_files [] folder)) as Hlen.
  cbn [advance initial_state progress processed_files app Nat.add].
  split; [reflexivity|]. split; [|split; [|split]].
  - apply Forall_forall. intros [k t] Hin.
    apply in_map_iff in Hin as (k' & Heq & Hk). injection Heq as <- <-.
    apply in_seq in Hk. cbn [fst snd]. lia.
  - exact Hle.
  - exact Hlen.
  - apply total_files_count.
Qed.

(** When no directory has a name ending with [".tap"], the POSIX total is
    the final count. *)
Lemma processed_reaches_total (folder : list node) (spindle_speed : string) :
  filter eligible (dirs_of [] folder) = [] ->
  update_spindle_speed Posix folder spindle_speed
  = Ok (advance spindle_speed (total_files Posix folder)
                (visited (os_walk [] folder)) (initial_state folder))
  /\ total_files Posix folder
     = List.length (visited (os_walk [] folder)).
Proof.
  intros H. split; [apply update_spindle_speed_completes|].
  rewrite total_files_count.
  change (matches Posix) with eligible. rewrite H.
  rewrite (Permutation_length (visited_tap_files [] folder)). simpl. lia.
Qed.

(** X10.  Without file whose name ends with [".tap"] the loop body never
    reaches the rewriter nor the division: the run ends in the state it
    started from, with no progress line. *)
Lemma no_tap_files_no_division (fl : flavour) (folder : list node)
      (spindle_speed : string) :
  filter eligible (files_of [] folder) = [] ->
  update_spindle_speed fl folder spindle_speed = Ok (initial_state folder).
Proof.
  intros H. pose proof (visited_tap_files [] folder) as HP.
  rewrite H in HP. apply Permutation_sym, Permutation_nil in HP.
  now rewrite update_spindle_speed_completes, HP, advance_nil.
Qed.

(** C7, at a folder that holds no file but an empty directory named
    ["jobs.tap"]: the run ends normally with no file processed and no
    division evaluated, and the total is 1. *)
Theorem total_counts_tap_directory (fl : flavour) :
  files_of [] [Dir "jobs.tap" []] = []
  /\ update_spindle_speed fl [Dir "jobs.tap" []] "1000"
     = Ok {| fs := [Dir "jobs.tap" []];
             processed_files := 0;
             calls := [];
             progress := [] |}
  /\ total_files fl [Dir "jobs.tap" []] = 1.
Proof. destruct fl; repeat split. Qed.

(** C9, at a folder that holds the file ["a.tap"] and an empty directory
    named ["old.tap"]: the run ends with one file processed, of a total
    of 2. *)
Theorem processed_below_total_at_end (fl : flavour) :
  update_spindle_speed fl
    [File "a.tap" ("S500" +:+ nl); Dir "old.tap" []] "1000"
  = Ok {| fs := [File "a.tap" ("S1000 M3" +:+ nl); Dir "old.tap" []];
          processed_files := 1;
          calls := [["a.tap"]];
          progress := [(1, 2)] |}
  /\ total_files fl [File "a.tap" ("S500" +:+ nl); Dir "old.tap" []] = 2.
Proof. destruct fl; split; reflexivity. Qed.

(** ** The scenarios of the specification *)

Example scenario_update :
  rewrite_text "1000" ("G1 X1" +:+ nl +:+ "S500" +:+ nl +:+ "G1 Y2" +:+ nl)
  = Written ("G1 X1" +:+ nl +:+ "S1000 M3" +:+ nl +:+ "G1 Y2" +:+ nl).
Proof. reflexivity. Qed.

Example scenario_skip :
  rewrite_text "1000" ("G1 X1" +:+ nl +:+ "S1000 M3" +:+ nl +:+ "G1 Y2" +:+ nl)
  = Skipped.
Proof. reflexivity. Qed.

Example scenario_readlines :
  readlines ("a" +:+ nl +:+ nl +:+ "bc") = ["a" +:+ nl; nl; "bc"].
Proof. reflexivity. Qed.

Example scenario_file :
  update_file_spindle_speed ["jobs"; "b.tap"] "1000"
    [Dir "jobs" [File "a.tap" "S1"; File "b.tap" ("G0" +:+ nl +:+ "S500")]]
  = Ok [Dir "jobs" [File "a.tap" "S1";
                    File "b.tap" ("G0" +:+ nl +:+ "S1000 M3" +:+ nl)]]
  /\ update_file_spindle_speed ["jobs"; "c.tap"] "1000"
       [Dir "jobs" [File "a.tap" "S1"]]
     = IOError.
Proof. split; reflexivity. Qed.

Example scenario_nested :
  update_spindle_speed Posix
    [File "readme.txt" "S1"; Dir "jobs" [File "b.tap" "S2"; File "c.TAP" "S3"];
     File "a.tap" ("G0" +:+ nl)] "7"
  = Ok {| fs := [File "readme.txt" "S1";
                 Dir "jobs" [File "b.tap" ("S7 M3" +:+ nl); File "c.TAP" "S3"];
                 File "a.tap" ("G0" +:+ nl)];
          processed_files := 2;
          calls := [["a.tap"]; ["jobs"; "b.tap"]];
          progress := [(1, 2); (2, 2)] |}.
Proof. reflexivity. Qed.

(** On Windows the pattern also retains ["c.TAP"], which the loop passes
    over: the total is 3 and two files are processed. *)
Example scenario_nested_windows :
  update_spindle_speed Windows
    [File "readme.txt" "S1"; Dir "jobs" [File "b.tap" "S2"; File "c.TAP" "S3"];
     File "a.tap" ("G0" +:+ nl)] "7"
  = Ok {| fs := [File "readme.txt" "S1";
                 Dir "jobs" [File "b.tap" ("S7 M3" +:+ nl); File "c.TAP" "S3"];
                 File "a.tap" ("G0" +:+ nl)];
          processed_files := 2;
          calls := [["a.tap"]; ["jobs"; "b.tap"]];
          progress := [(1, 3); (2, 3)] |}.
Proof. reflexivity. Qed.

(** * Further properties of the rewriter *)

(** X1: for a speed with neither line feed nor carriage return, a call on
    the file a call with the same speed left returns without writing when
    the file has a line starting with ['S']; a file without such a line is
    written back, with the text read, by every call. *)
Theorem second_call_skips (fl : flavour) (spindle_speed disk : string) :
  single_line spindle_speed = true ->
  lacks CR spindle_speed = true ->
  rewrite_text spindle_speed
               (universal_newlines (disk_after fl spindle_speed disk))
  = if has_directive (lines_on_disk disk) then Skipped
    else Written (universal_newlines disk).
Proof.
  intros Hs Hcr. rewrite (disk_after_read fl _ _ Hcr).
  now apply rewrite_text_again.
Qed.

Lemma second_call_skips_witness :
  single_line "1000" = true
  /\ lacks CR "1000" = true
  /\ rewrite_text "1000"
       (universal_newlines
          (disk_after Windows "1000"
                      ("G1 X1" +:+ String CR nl +:+ "S500" +:+ String CR nl)))
     = Skipped.
Proof.
  split; [reflexivity|]. split; [reflexivity|].
  exact (second_call_skips
           Windows "1000"
           ("G1 X1" +:+ String CR nl +:+ "S500" +:+ String CR nl)
           eq_refl eq_refl).
Defined.

Lemma length_append (a b : string) :
  String.length (a +:+ b) = String.length a + String.length b.
Proof. induction a as [|c a IH]; simpl; [reflexivity | now rewrite IH]. Qed.

Lemma append_cancel_l (a b c : string) : a +:+ b = a +:+ c -> b = c.
Proof.
  induction a as [|x a IH]; simpl; [trivial|].
  intros H. injection H as H. now apply IH.
Qed.

Lemma append_cancel_r (a b c : string) : a +:+ c = b +:+ c -> a = b.
Proof.
  revert b. induction a as [|x a IH]; intros [|y b] H; simpl in H.
  - reflexivity.
  - apply (f_equal String.length) in H. simpl in H.
    rewrite length_append in H. lia.
  - apply (f_equal String.length) in H. simpl in H.
    rewrite length_append in H. lia.
  - injection H as -> H. f_equal. now apply IH.
Qed.

(** X2: a call that writes changes the text of the file exactly when the
    file has a line starting with ['S']: the text written to a file without
    such a line is the text read, and a replacement line never equals the
    line it replaces. *)
Theorem write_changes_iff_directive (spindle_speed text text' : string) :
  rewrite_text spindle_speed text = Written text' ->
  (text' = text <-> has_directive (readlines text) = false).
Proof.
  intros H. destruct (has_directive (readlines text)) eqn:Hd.
  - split; [|discriminate]. intros Heq. exfalso.
    destruct (first_directive_split _ Hd) as (pre & line & post & E & Hp & Hl).
    rewrite (rewrite_text_directive _ _ _ _ _ E Hp Hl) in H.
    destruct (contains (match_text spindle_speed) line) eqn:Hc;
      [discriminate|].
    injection H as H. subst text'.
    assert (Ht : text = writelines (pre ++ line :: post))
      by (rewrite <- E; symmetry; apply writelines_readlines).
    rewrite Ht, !writelines_app, !writelines_cons in Heq.
    apply append_cancel_l, append_cancel_r in Heq. subst line.
    destruct (replacement_line_matches spindle_speed) as [_ Hm]. congruence.
  - rewrite (rewrite_text_no_directive _ _ Hd) in H. injection H as <-.
    now split.
Qed.

Lemma write_changes_iff_directive_witness :
  rewrite_text "1000" ("G1 X1" +:+ nl +:+ "S500")
  = Written ("G1 X1" +:+ nl +:+ "S1000 M3" +:+ nl)
  /\ ("G1 X1" +:+ nl +:+ "S1000 M3" +:+ nl = "G1 X1" +:+ nl +:+ "S500"
      <-> has_directive (readlines ("G1 X1" +:+ nl +:+ "S500")) = false).
Proof.
  split; [reflexivity|].
  exact (write_changes_iff_directive
           "1000" ("G1 X1" +:+ nl +:+ "S500")
           ("G1 X1" +:+ nl +:+ "S1000 M3" +:+ nl) eq_refl).
Defined.

Lemma plain_cons (c : ascii) (s : string) :
  plain (String c s) = true ->
  c <> " "%char /\ c <> "S"%char /\ c <> LF /\ c <> CR /\ plain s = true.
Proof.
  cbn [plain]. intros H. apply andb_true_iff in H as [H Hs].
  apply andb_true_iff in H as [H H4]. apply andb_true_iff in H as [H H3].
  apply andb_true_iff in H as [H1 H2].
  apply negb_true_iff, Ascii.eqb_neq in H1.
  apply negb_true_iff, Ascii.eqb_neq in H2.
  apply negb_true_iff, Ascii.eqb_neq in H3.
  apply negb_true_iff, Ascii.eqb_neq in H4. now repeat split.
Qed.

Lemma plain_single_line (s : string) : plain s = true -> single_line s = true.
Proof.
  induction s as [|c s IH]; [trivial|]. intros H.
  apply plain_cons in H as (_ & _ & H & _ & Hs).
  apply Ascii.eqb_neq in H. cbn [single_line]. rewrite H. now apply IH.
Qed.

Lemma plain_lacks_CR (s : string) : plain s = true -> lacks CR s = true.
Proof.
  induction s as [|c s IH]; [trivial|]. intros H.
  apply plain_cons in H as (_ & _ & _ & H & Hs).
  apply Ascii.eqb_neq in H. cbn [lacks]. rewrite H. now apply IH.
Qed.

(** No text starting with ['S'] occurs in what follows the ['S'] of a
    replacement line made from a plain speed. *)
Lemma no_directive_text_inside (a x : string) :
  plain a = true ->
  contains (String "S" x) (a +:+ " M3" +:+ nl) = false.
Proof.
  intros Ha. induction a as [|c a IH].
  - simpl. destruct x; reflexivity.
  - apply plain_cons in Ha as (_ & HS & _ & _ & Ha).
    change (String c a +:+ " M3" +:+ nl)
      with (String c (a +:+ " M3" +:+ nl)).
    cbn [contains]. rewrite (IH Ha). cbn [String.prefix].
    destruct (ascii_dec "S" c); [congruence | reflexivity].
Qed.

Lemma prefix_plain_speed (b : string) :
  forall a,
    plain a = true -> plain b = true ->
    String.prefix (b +:+ " ") (a +:+ " M3" +:+ nl) = true -> a = b.
Proof.
  induction b as [|d b IH]; intros [|c a] Ha Hb.
  - reflexivity.
  - apply plain_cons in Ha as (Hsp & _). cbn [String.append String.prefix].
    destruct (ascii_dec " " c); [congruence | intros H; discriminate H].
  - apply plain_cons in Hb as (Hsp & _). cbn [String.append String.prefix].
    destruct (ascii_dec d " "); [congruence | intros H; discriminate H].
  - apply plain_cons in Ha as (_ & _ & _ & _ & Ha).
    apply plain_cons in Hb as (_ & _ & _ & _ & Hb).
    cbn [String.append String.prefix].
    destruct (ascii_dec d c) as [->|]; [|intros H; discriminate H].
    intros H. f_equal. now apply IH.
Qed.

(** The line written for one plain speed does not hold the text looked for
    with another. *)
Lemma other_speed_not_matched (a b : string) :
  plain a = true -> plain b = true -> a <> b ->
  contains (match_text b) (replacement_line a) = false.
Proof.
  intros Ha Hb Hne. unfold match_text, replacement_line.
  change ("S" +:+ b +:+ " ") with (String "S" (b +:+ " ")).
  change ("S" +:+ a +:+ " M3" +:+ nl) with (String "S" (a +:+ " M3" +:+ nl)).
  cbn [contains]. rewrite (no_directive_text_inside a _ Ha).
  cbn [String.prefix]. destruct (ascii_dec "S" "S"); [|congruence].
  destruct (String.prefix (b +:+ " ") (a +:+ " M3" +:+ nl)) eqn:Hpre;
    [|reflexivity].
  exfalso. apply Hne. now apply prefix_plain_speed.
Qed.

(** X3: a call with a plain speed [a] followed by a call with another plain
    speed [b] leaves the first line starting with ['S'] as ['S<b> M3']:
    the second speed wins.  The one exception is a line that already held
    both ['S<a> '] and ['S<b> ']: both calls skip it.  The other lines a
    reader finds are those it found before. *)
Theorem speed_change (fl : flavour) (a b disk : string)
        (pre post : list string) (line : string) :
  plain a = true ->
  plain b = true ->
  a <> b ->
  lines_on_disk disk = pre ++ line :: post ->
  has_directive pre = false ->
  is_directive line = true ->
  lines_after fl b (disk_after fl a disk)
  = pre ++ (if contains (match_text a) line && contains (match_text b) line
            then line else replacement_line b) :: post.
Proof.
  intros Ha Hb Hne E Hp Hl. unfold lines_on_disk in E.
  rewrite (lines_after_read fl _ _ (plain_lacks_CR b Hb)).
  rewrite (disk_after_read fl _ _ (plain_lacks_CR a Ha)).
  pose proof (written_lines_directive a _ pre post line
                                      (plain_single_line a Ha) E Hp Hl) as H1.
  destruct (contains (match_text a) line) eqn:Hca.
  - now rewrite (written_lines_directive b _ pre post line
                                         (plain_single_line b Hb) H1 Hp Hl).
  - destruct (replacement_line_matches a) as [Hr _].
    rewrite (written_lines_directive b _ pre post (replacement_line a)
                                     (plain_single_line b Hb) H1 Hp Hr).
    now rewrite (other_speed_not_matched a b Ha Hb Hne).
Qed.

Lemma speed_change_witness :
  "1000" <> "2500"
  /\ lines_after Windows "2500"
       (disk_after Windows "1000"
                   ("G1 X1" +:+ String CR nl +:+ "S500" +:+ String CR nl))
     = ["G1 X1" +:+ nl; "S2500 M3" +:+ nl].
Proof.
  assert (Hne : "1000" <> "2500") by discriminate.
  split; [exact Hne|].
  exact (speed_change Windows "1000" "2500"
                      ("G1 X1" +:+ String CR nl +:+ "S500" +:+ String CR nl)
                      ["G1 X1" +:+ nl] [] ("S500" +:+ nl)
                      eq_refl eq_refl Hne eq_refl eq_refl eq_refl).
Defined.

(** * Further properties of the rewriter on the file system *)

Lemma map_ext_Forall {A B : Type} (g h : A -> B) (l : list A) :
  Forall (fun x => g x = h x) l -> map g l = map h l.
Proof.
  induction 1 as [|x l Hx _ IH]; simpl; [reflexivity | now rewrite Hx, IH].
Qed.

Lemma shape_map_file (f : string -> string) (n : node) :
  forall p, shape (map_file f p n) = shape n.
Proof.
  induction n as [name text|name children IH] using node_induction;
    intros p.
  - destruct p as [|a [|b p]]; simpl; try reflexivity.
    now destruct (String.eqb name a).
  - destruct p as [|a [|b p]]; simpl; try reflexivity.
    destruct (String.eqb name a); [|reflexivity]. simpl. f_equal.
    rewrite map_map. apply map_ext_Forall.
    revert IH. apply Forall_impl. intros c Hc. apply Hc.
Qed.

(** X4: a call of the rewriter that returns normally keeps every name and
    the whole layout of the tree: nothing is created, deleted or renamed,
    and [os.walk] lists what it listed before. *)
Theorem rewriter_keeps_layout (file_path : path) (spindle_speed : string)
        (entries entries' : list node) :
  update_file_spindle_speed file_path spindle_speed entries = Ok entries' ->
  map shape entries' = map shape entries
  /\ forall top, os_walk top entries' = os_walk top entries.
Proof.
  unfold update_file_spindle_speed.
  destruct (existsb (is_file_at file_path) entries); [|discriminate].
  intros H. injection H as <-. split.
  - rewrite map_map. apply map_ext_Forall, Forall_forall.
    intros n _. apply shape_map_file.
  - intros top. apply os_walk_update.
Qed.

Lemma rewriter_keeps_layout_witness :
  update_file_spindle_speed ["jobs"; "b.tap"] "1000"
    [Dir "jobs" [File "b.tap" "S500"]; File "b.tap" "S1"]
  = Ok [Dir "jobs" [File "b.tap" ("S1000 M3" +:+ nl)]; File "b.tap" "S1"]
  /\ map shape [Dir "jobs" [File "b.tap" ("S1000 M3" +:+ nl)]; File "b.tap" "S1"]
     = map shape [Dir "jobs" [File "b.tap" "S500"]; File "b.tap" "S1"].
Proof.
  split; [reflexivity|].
  exact (proj1 (rewriter_keeps_layout
                  ["jobs"; "b.tap"] "1000"
                  [Dir "jobs" [File "b.tap" "S500"]; File "b.tap" "S1"]
                  [Dir "jobs" [File "b.tap" ("S1000 M3" +:+ nl)];
                   File "b.tap" "S1"]
                  eq_refl)).
Defined.

Lemma flat_map_map_Forall {A B C : Type} (g : B -> list C) (h : A -> B)
      (k : A -> list C) (l : list A) :
  Forall (fun x => g (h x) = k x) l -> flat_map g (map h l) = flat_map k l.
Proof.
  induction 1 as [|x l Hx _ IH]; simpl; [reflexivity | now rewrite Hx, IH].
Qed.





Lemma is_file_at_texts_at (n : node) :
  forall p, is_file_at p n = negb (Nat.eqb (List.length (texts_at p n)) 0).
Proof.
  induction n as [name text|name children IH] using node_induction;
    intros p.
  - destruct p as [|a [|b p]]; simpl; try reflexivity.
    now destruct (String.eqb name a).
  - destruct p as [|a [|b p]]; simpl; try reflexivity.
    destruct (String.eqb name a); [|reflexivity]. simpl.
    induction IH as [|c cs Hc _ IHcs]; [reflexivity|].
    simpl. rewrite length_app, Hc, IHcs.
    destruct (List.length (texts_at (b :: p) c)); simpl; reflexivity.
Qed.

(** The rewriter raises [IOError] exactly when there is nothing to read at
    the path it is given: a path that is empty, that names a directory, or
    that names nothing. *)
Lemma rewriter_raises_iff_no_file (file_path : path)
        (spindle_speed : string) (entries : list node) :
  update_file_spindle_speed file_path spindle_speed entries = IOError
  <-> read_texts file_path entries = [].
Proof.
  unfold update_file_spindle_speed, read_texts.
  assert (H : existsb (is_file_at file_path) entries
              = negb (Nat.eqb (List.length
                                 (flat_map (texts_at file_path) entries)) 0)).
  { induction entries as [|n ns IH]; [reflexivity|].
    simpl. rewrite length_app, IH, is_file_at_texts_at.
    destruct (List.length (texts_at file_path n)); reflexivity. }
  rewrite H.
  destruct (flat_map (texts_at file_path) entries) as [|t ts]; simpl.
  - now split.
  - split; discriminate.
Qed.

(** * Further properties of the walker *)

Lemma files_of_node_below (n : node) :
  forall top q,
    In q (files_of_node top n) ->
    exists rel,
      q = top ++ node_name n :: rel
      /\ (rel = [] -> exists text, n = File (node_name n) text).
Proof.
  induction n as [name text|name children IH] using node_induction;
    intros top q Hq; simpl in Hq.
  - destruct Hq as [<-|[]]. exists []. split; [reflexivity|].
    intros _. now exists text.
  - apply in_flat_map in Hq as (c & Hc & Hq). rewrite Forall_forall in IH.
    destruct (IH c Hc _ _ Hq) as (rel & -> & _).
    exists (node_name c :: rel). split; [now rewrite <- app_assoc|].
    discriminate.
Qed.

Lemma map_texts_ext (g1 g2 : path -> string -> string) (n : node) :
  forall top,
    (forall q, In q (files_of_node top n) -> forall t, g1 q t = g2 q t) ->
    map_texts g1 top n = map_texts g2 top n.
Proof.
  induction n as [name text|name children IH] using node_induction;
    intros top H; simpl.
  - f_equal. apply H. now left.
  - f_equal. rewrite Forall_forall in IH. apply map_ext_in. intros c Hc.
    apply IH; [exact Hc|]. intros q Hq. apply H. simpl.
    apply in_flat_map. now exists c.
Qed.

Lemma map_texts_id (n : node) :
  forall top, map_texts (fun _ t => t) top n = n.
Proof.
  induction n as [name text|name children IH] using node_induction;
    intros top; simpl; [reflexivity|].
  f_equal. rewrite Forall_forall in IH.
  rewrite <- (map_id children) at 2. apply map_ext_in.
  intros c Hc. now apply IH.
Qed.

Lemma rewrite_node_as_map_texts (spindle_speed : string) (n : node) :
  forall top,
    rewrite_node spindle_speed n
    = map_texts (fun q t => if eligible q then text_after spindle_speed t
                            else t) top n.
Proof.
  induction n as [name text|name children IH] using node_induction;
    intros top; simpl.
  - now rewrite eligible_snoc.
  - f_equal. rewrite Forall_forall in IH. apply map_ext_in.
    intros c Hc. now apply IH.
Qed.

(** A write at one path, seen as a change of every text by its path. *)
Lemma map_file_as_map_texts (f : string -> string) (n : node) :
  forall p top,
    map_file f p n
    = map_texts (fun q t => if list_eq_dec string_dec q (top ++ p)
                            then f t else t) top n.
Proof.
  assert (Hout : forall name children p top,
             (forall rel, rel <> [] -> name :: rel <> p) ->
             Dir name children
             = map_texts (fun q t => if list_eq_dec string_dec q (top ++ p)
                                     then f t else t)
                         top (Dir name children)).
  { intros name children p top Hp.
    rewrite <- (map_texts_id (Dir name children) top) at 1.
    apply map_texts_ext. intros q Hq t.
    destruct (files_of_node_below _ _ _ Hq) as (rel & -> & Hrel).
    destruct (list_eq_dec string_dec _ _) as [Heq|]; [|reflexivity].
    apply app_inv_head in Heq. exfalso. apply (Hp rel); [|exact Heq].
    intros ->. destruct (Hrel eq_refl) as (text & Hfile). discriminate. }
  induction n as [name text|name children IH] using node_induction;
    intros p top.
  - destruct p as [|a [|b p]]; simpl.
    + destruct (list_eq_dec string_dec _ _) as [Heq|]; [|reflexivity].
      apply app_inv_head in Heq. discriminate.
    + destruct (String.eqb_spec name a) as [->|Hna];
        destruct (list_eq_dec string_dec _ _) as [Heq|Hne];
        try reflexivity; [congruence|].
      apply app_inv_head in Heq. congruence.
    + destruct (list_eq_dec string_dec _ _) as [Heq|]; [|reflexivity].
      apply app_inv_head in Heq. discriminate.
  - destruct p as [|a [|b p]].
    + apply Hout. intros rel _. discriminate.
    + apply Hout. intros rel Hrel Heq. injection Heq as _ ->. congruence.
    + cbn [map_file]. destruct (String.eqb_spec name a) as [->|Hna].
      * cbn [map_texts]. f_equal. rewrite Forall_forall in IH.
        apply map_ext_in. intros c Hc.
        rewrite (IH c Hc (b :: p) (top ++ [a])).
        now rewrite <- app_assoc.
      * apply Hout. intros rel _ Heq. congruence.
Qed.

Lemma map_texts_compose (g1 g2 : path -> string -> string) (n : node) :
  forall top,
    map_texts g2 top (map_texts g1 top n)
    = map_texts (fun q t => g2 q (g1 q t)) top n.
Proof.
  induction n as [name text|name children IH] using node_induction;
    intros top; simpl; [reflexivity|].
  f_equal. rewrite map_map. rewrite Forall_forall in IH.
  apply map_ext_in. intros c Hc. now apply IH.
Qed.

(** The file system after writes at [paths]: the text of each file went
    through the rewriter once for each time its path occurs. *)
Lemma rewrite_all_as_map_texts (spindle_speed : string) (paths : list path) :
  forall entries,
    rewrite_all spindle_speed paths entries
    = map (map_texts (apply_at (text_after spindle_speed) paths) []) entries.
Proof.
  unfold rewrite_all.
  induction paths as [|p ps IH]; intros entries; simpl.
  - rewrite <- (map_id entries) at 1. apply map_ext.
    intros n. symmetry. apply map_texts_id.
  - rewrite IH, map_map. apply map_ext. intros n.
    rewrite (map_file_as_map_texts _ n p []), map_texts_compose.
    reflexivity.
Qed.

Lemma apply_at_not_in (f : string -> string) (paths : list path) (q : path) :
  forall t, ~ In q paths -> apply_at f paths q t = t.
Proof.
  unfold apply_at. induction paths as [|p ps IH]; intros t Hq; simpl.
  - reflexivity.
  - destruct (list_eq_dec string_dec q p) as [->|].
    + exfalso. apply Hq. now left.
    + apply IH. intros H. apply Hq. now right.
Qed.

Lemma apply_at_once (f : string -> string) (paths : list path) (q : path) :
  forall t, NoDup paths -> In q paths -> apply_at f paths q t = f t.
Proof.
  induction paths as [|p ps IH]; intros t Hnd Hq; [destruct Hq|].
  inversion Hnd as [|? ? Hp Hps]; subst.
  change (apply_at f (p :: ps) q t)
    with (apply_at f ps q (if list_eq_dec string_dec q p then f t else t)).
  destruct (list_eq_dec string_dec q p) as [->|Hne].
  - now apply apply_at_not_in.
  - destruct Hq as [->|Hq]; [congruence|]. now apply IH.
Qed.

(** With distinct paths, the writes of a run amount to one pass of the
    rewriter over each file whose name ends with [".tap"]. *)
Lemma rewrite_all_visited (spindle_speed : string) (folder : list node) :
  NoDup (files_of [] folder) ->
  rewrite_all spindle_speed (visited (os_walk [] folder)) folder
  = map (rewrite_node spindle_speed) folder.
Proof.
  intros Hnd. rewrite rewrite_all_as_map_texts. apply map_ext_in.
  intros n Hn. rewrite (rewrite_node_as_map_texts spindle_speed n []).
  apply map_texts_ext. intros q Hq t.
  pose proof (visited_tap_files [] folder) as HP.
  assert (Hin : In q (files_of [] folder))
    by (apply in_flat_map; now exists n).
  destruct (eligible q) eqn:He.
  - apply apply_at_once.
    + apply (Permutation_NoDup (Permutation_sym HP)). now apply NoDup_filter.
    + apply (Permutation_in _ (Permutation_sym HP)). now apply filter_In.
  - apply apply_at_not_in. intros Hv.
    apply (Permutation_in _ HP), filter_In in Hv. destruct Hv. congruence.
Qed.

(** X6: when the files of the tree have distinct paths and a run ends
    normally, every file whose name ends with [".tap"], at any depth, holds
    [text_after] of the text it held, and every other file, and every name,
    is as it was. *)
Theorem run_rewrites_tap_files (fl : flavour) (folder : list node)
        (spindle_speed : string) (st : walker_state) :
  NoDup (files_of [] folder) ->
  update_spindle_speed fl folder spindle_speed = Ok st ->
  fs st = map (rewrite_node spindle_speed) folder.
Proof.
  intros Hnd H. rewrite update_spindle_speed_completes in H.
  injection H as <-. exact (rewrite_all_visited spindle_speed folder Hnd).
Qed.

Lemma run_rewrites_tap_files_witness :
  NoDup (files_of [] [File "a.txt" "S1";
                      Dir "jobs" [File "b.tap" "S2"; File "c.TAP" "S3"]])
  /\ update_spindle_speed
       Windows [File "a.txt" "S1";
                Dir "jobs" [File "b.tap" "S2"; File "c.TAP" "S3"]] "7"
     = Ok {| fs := [File "a.txt" "S1";
                    Dir "jobs" [File "b.tap" ("S7 M3" +:+ nl);
                                File "c.TAP" "S3"]];
             processed_files := 1;
             calls := [["jobs"; "b.tap"]];
             progress := [(1, 2)] |}
  /\ [File "a.txt" "S1";
      Dir "jobs" [File "b.tap" ("S7 M3" +:+ nl); File "c.TAP" "S3"]]
     = map (rewrite_node "7")
           [File "a.txt" "S1";
            Dir "jobs" [File "b.tap" "S2"; File "c.TAP" "S3"]].
Proof.
  assert (H : NoDup (files_of [] [File "a.txt" "S1";
                                  Dir "jobs" [File "b.tap" "S2";
                                              File "c.TAP" "S3"]])).
  { repeat constructor; simpl; intuition discriminate. }
  split; [exact H|]. split; [reflexivity|].
  exact (run_rewrites_tap_files
           Windows [File "a.txt" "S1";
                    Dir "jobs" [File "b.tap" "S2"; File "c.TAP" "S3"]] "7"
           _ H eq_refl).
Defined.

Lemma text_after_again (spindle_speed text : string) :
  single_line spindle_speed = true ->
  text_after spindle_speed (text_after spindle_speed text)
  = text_after spindle_speed text.
Proof.
  intros Hs. remember (text_after spindle_speed text) as text' eqn:Et.
  unfold text_after at 1.
  destruct (rewrite_text spindle_speed text') as [|written] eqn:Hr;
    [reflexivity|].
  destruct (has_directive (readlines text)) eqn:Hd.
  - destruct (first_directive_split _ Hd) as (pre & line & post & E & Hp & Hl).
    pose proof (written_lines_directive _ _ _ _ _ Hs E Hp Hl) as Ha.
    rewrite <- Et in Ha.
    destruct (replacement_line_matches spindle_speed) as [Hdir Hm].
    destruct (contains (match_text spindle_speed) line) eqn:Hc.
    + rewrite (rewrite_text_directive _ _ _ _ _ Ha Hp Hl), Hc in Hr.
      discriminate.
    + rewrite (rewrite_text_directive _ _ _ _ _ Ha Hp Hdir), Hm in Hr.
      discriminate.
  - assert (Ht : text' = text).
    { subst text'. unfold text_after.
      now rewrite (rewrite_text_no_directive _ _ Hd). }
    rewrite Ht, (rewrite_text_no_directive _ _ Hd) in Hr.
    injection Hr as <-. now rewrite Ht.
Qed.

Lemma files_of_node_rewrite (spindle_speed : string) (n : node) :
  forall top,
    files_of_node top (rewrite_node spindle_speed n) = files_of_node top n.
Proof.
  induction n as [name text|name children IH] using node_induction;
    intros top; simpl; [reflexivity|].
  apply flat_map_map_Forall. revert IH. apply Forall_impl.
  intros c Hc. apply Hc.
Qed.

Lemma rewrite_node_again (spindle_speed : string) (n : node) :
  single_line spindle_speed = true ->
  rewrite_node spindle_speed (rewrite_node spindle_speed n)
  = rewrite_node spindle_speed n.
Proof.
  intros Hs.
  induction n as [name text|name children IH] using node_induction; simpl.
  - destruct (endswith name ".tap"); [|reflexivity].
    now rewrite text_after_again.
  - f_equal. rewrite map_map. now apply map_ext_Forall.
Qed.

(** The writes of a run over the tree a run left change no text. *)
Lemma rewrite_all_again (spindle_speed : string) (folder : list node) :
  single_line spindle_speed = true ->
  NoDup (files_of [] folder) ->
  rewrite_all spindle_speed
    (visited (os_walk [] (map (rewrite_node spindle_speed) folder)))
    (map (rewrite_node spindle_speed) folder)
  = map (rewrite_node spindle_speed) folder.
Proof.
  intros Hs Hnd. rewrite rewrite_all_visited.
  - rewrite map_map. apply map_ext. intros n. now apply rewrite_node_again.
  - unfold files_of in *.
    rewrite (flat_map_map_Forall _ _ (files_of_node [])); [exact Hnd|].
    apply Forall_forall. intros n _. apply files_of_node_rewrite.
Qed.

Lemma rewrite_node_lacks_CR (spindle_speed : string) (n : node) :
  lacks CR spindle_speed = true ->
  texts_lack_CR n = true ->
  texts_lack_CR (rewrite_node spindle_speed n) = true.
Proof.
  intros Hv.
  induction n as [name text|name children IH] using node_induction;
    cbn [rewrite_node texts_lack_CR].
  - intros Ht. destruct (endswith name ".tap"); [|exact Ht].
    now apply text_after_lacks_CR.
  - intros Hc. rewrite forallb_forall in *. rewrite Forall_forall in IH.
    intros c Hin. apply in_map_iff in Hin as (m & <- & Hm).
    apply IH; auto.
Qed.

(** The next run reads the texts without carriage return as they were
    written. *)
Lemma read_back_lacks_CR (fl : flavour) (n : node) :
  texts_lack_CR n = true -> read_back fl n = n.
Proof.
  induction n as [name text|name children IH] using node_induction;
    cbn [read_back texts_lack_CR]; intros H.
  - now rewrite read_written.
  - f_equal. rewrite <- (map_id children) at 2. apply map_ext_in.
    rewrite forallb_forall in H. rewrite Forall_forall in IH.
    intros c Hin. apply IH; auto.
Qed.

(** X7: for a speed with neither line feed nor carriage return and a tree
    whose files have distinct paths and hold texts as they are read, a
    second run over the tree the first run left, when both end normally,
    changes no text: the file system after the second run is the file system
    after the first. *)
Theorem rerun_changes_nothing (fl : flavour) (folder : list node)
        (spindle_speed : string) (st st' : walker_state) :
  single_line spindle_speed = true ->
  lacks CR spindle_speed = true ->
  forallb texts_lack_CR folder = true ->
  NoDup (files_of [] folder) ->
  update_spindle_speed fl folder spindle_speed = Ok st ->
  update_spindle_speed fl (map (read_back fl) (fs st)) spindle_speed
  = Ok st' ->
  map (read_back fl) (fs st) = fs st /\ fs st' = fs st.
Proof.
  intros Hs Hcr Ht Hnd H1 H2.
  assert (Hfs : fs st = map (rewrite_node spindle_speed) folder).
  { rewrite update_spindle_speed_completes in H1. injection H1 as <-.
    exact (rewrite_all_visited spindle_speed folder Hnd). }
  rewrite Hfs in *.
  assert (Hb : map (read_back fl) (map (rewrite_node spindle_speed) folder)
               = map (rewrite_node spindle_speed) folder).
  { rewrite <- (map_id (map _ folder)) at 2. apply map_ext_in.
    intros n Hn. apply read_back_lacks_CR.
    apply in_map_iff in Hn as (m & <- & Hm).
    apply rewrite_node_lacks_CR; [exact Hcr|].
    rewrite forallb_forall in Ht. now apply Ht. }
  split; [exact Hb|]. rewrite Hb in H2.
  rewrite update_spindle_speed_completes in H2. injection H2 as <-.
  exact (rewrite_all_again spindle_speed folder Hs Hnd).
Qed.

Lemma rerun_changes_nothing_witness :
  single_line "7" = true
  /\ lacks CR "7" = true
  /\ forallb texts_lack_CR
       [Dir "jobs" [File "b.tap" ("G0" +:+ nl +:+ "S2")]] = true
  /\ NoDup (files_of [] [Dir "jobs" [File "b.tap" ("G0" +:+ nl +:+ "S2")]])
  /\ update_spindle_speed
       Windows [Dir "jobs" [File "b.tap" ("G0" +:+ nl +:+ "S2")]] "7"
     = Ok {| fs := [Dir "jobs" [File "b.tap"
                                  ("G0" +:+ nl +:+ "S7 M3" +:+ nl)]];
             processed_files := 1;
             calls := [["jobs"; "b.tap"]];
             progress := [(1, 1)] |}
  /\ map (read_back Windows)
         [Dir "jobs" [File "b.tap" ("G0" +:+ nl +:+ "S7 M3" +:+ nl)]]
     = [Dir "jobs" [File "b.tap" ("G0" +:+ nl +:+ "S7 M3" +:+ nl)]].
Proof.
  assert (H : NoDup (files_of [] [Dir "jobs" [File "b.tap"
                                                ("G0" +:+ nl +:+ "S2")]])).
  { repeat constructor; simpl; intuition discriminate. }
  split; [reflexivity|]. split; [reflexivity|]. split; [reflexivity|].
  split; [exact H|]. split; [reflexivity|].
  exact (proj1 (rerun_changes_nothing
                  Windows [Dir "jobs" [File "b.tap" ("G0" +:+ nl +:+ "S2")]]
                  "7"
                  {| fs := [Dir "jobs" [File "b.tap"
                                          ("G0" +:+ nl +:+ "S7 M3" +:+ nl)]];
                     processed_files := 1;
                     calls := [["jobs"; "b.tap"]];
                     progress := [(1, 1)] |}
                  {| fs := [Dir "jobs" [File "b.tap"
                                          ("G0" +:+ nl +:+ "S7 M3" +:+ nl)]];
                     processed_files := 1;
                     calls := [["jobs"; "b.tap"]];
                     progress := [(1, 1)] |}
                  eq_refl eq_refl eq_refl H eq_refl eq_refl)).
Defined.

Lemma filter_matches_split (fl : flavour) (paths : list path) :
  List.length (filter (matches fl) paths)
  = List.length (filter eligible paths)
    + List.length (filter (fun p => matches fl p && negb (eligible p)) paths).
Proof.
  induction paths as [|p ps IH]; [reflexivity|]. simpl.
  destruct (eligible p) eqn:E.
  - rewrite (eligible_matches fl p E). simpl. now rewrite IH.
  - destruct (matches fl p); simpl; rewrite IH; lia.
Qed.

(** X8: when a run ends normally, its progress lines count 1, 2, ... up to
    the final count, each against the total computed before the loop; no
    count shown exceeds that total, and the final count is the number of
    files whose name ends with [".tap"]. *)
Theorem progress_counts (fl : flavour) (folder : list node)
        (spindle_speed : string) (st : walker_state) :
  update_spindle_speed fl folder spindle_speed = Ok st ->
  progress st
  = map (fun k => (k, total_files fl folder))
        (List.seq 1 (processed_files st))
  /\ Forall (fun shown => fst shown <= snd shown) (progress st)
  /\ processed_files st <= total_files fl folder
  /\ processed_files st
     = List.length (filter eligible (files_of [] folder)).
Proof.
  intros H. rewrite update_spindle_speed_completes in H.
  pose proof (visited_le_total fl folder) as Hle.
  pose proof (Permutation_length (visited_tap_files [] folder)) as Hlen.
  remember (visited (os_walk [] folder)) as paths eqn:Ep.
  injection H as <-.
  cbn [advance initial_state progress processed_files app Nat.add].
  split; [reflexivity|]. split; [|split].
  - apply Forall_forall. intros [k t] Hin.
    apply in_map_iff in Hin as (k' & Heq & Hk). injection Heq as <- <-.
    apply in_seq in Hk. cbn [fst snd]. lia.
  - exact Hle.
  - exact Hlen.
Qed.

Lemma progress_counts_witness :
  update_spindle_speed
    Windows [File "a.tap" "S1"; Dir "jobs" [File "b.tap" "S2"];
             File "c.TAP" "S3"] "7"
  = Ok {| fs := [File "a.tap" ("S7 M3" +:+ nl);
                 Dir "jobs" [File "b.tap" ("S7 M3" +:+ nl)];
                 File "c.TAP" "S3"];
          processed_files := 2;
          calls := [["a.tap"]; ["jobs"; "b.tap"]];
          progress := [(1, 3); (2, 3)] |}
  /\ Forall (fun shown => fst shown <= snd shown) [(1, 3); (2, 3)].
Proof.
  split; [reflexivity|].
  exact (proj1 (proj2 (progress_counts
                         Windows [File "a.tap" "S1";
                                  Dir "jobs" [File "b.tap" "S2"];
                                  File "c.TAP" "S3"] "7" _ eq_refl))).
Defined.

(** X9: the total of a run is the number of files processed, plus the
    number of files whose name matches the pattern without ending with
    [".tap"] (none on POSIX; on Windows those whose extension differs by
    case), plus the number of directories whose name matches. *)
Theorem total_accounting (fl : flavour) (folder : list node)
        (spindle_speed : string) :
  exists st,
    update_spindle_speed fl folder spindle_speed = Ok st
    /\ total_files fl folder
       = processed_files st
         + List.length
             (filter (fun p => matches fl p && negb (eligible p))
                     (files_of [] folder))
         + List.length (filter (matches fl) (dirs_of [] folder))
    /\ filter (fun p => matches Posix p && negb (eligible p))
              (files_of [] folder) = [].
Proof.
  eexists. split; [apply update_spindle_speed_completes|].
  cbn [advance initial_state processed_files Nat.add]. split.
  - rewrite total_files_count, filter_matches_split.
    now rewrite (Permutation_length (visited_tap_files [] folder)).
  - induction (files_of [] folder) as [|p ps IH]; [reflexivity|].
    cbn [filter]. change (matches Posix p) with (eligible p).
    destruct (eligible p); exact IH.
Qed.

Lemma no_tap_files_no_division_witness :
  filter eligible (files_of [] [File "a.txt" "S1"; Dir "d" [File "X.TAP" "S2"]])
  = []
  /\ update_spindle_speed Windows
       [File "a.txt" "S1"; Dir "d" [File "X.TAP" "S2"]] "7"
     = Ok (initial_state [File "a.txt" "S1"; Dir "d" [File "X.TAP" "S2"]]).
Proof.
  split; [reflexivity|]. now apply no_tap_files_no_division.
Defined.
